(** * DataScout: the crawl and extraction engine

    A shallow embedding of [src/services/scraper/index.ts] (the
    [ScraperService] class) and of [src/store/slices/scraperSlice.ts] (the
    Redux slice it reports to), with the properties the specification
    states about them.

    Conventions.
    - JavaScript strings are [string], a sequence of code units below 256.
    - A number used as a counter or a length is [nat] or [N]; the counters
      of a run stay far below 2^53, where a JavaScript number is an exact
      integer.
    - A JavaScript object used as a dictionary is a [gmap string _]; the
      object in which [processSelectors] gathers its results also carries
      the array that an assignment to [__proto__] makes its prototype.
    - [string | null] is [option string]; truthiness tests such as [!url]
      are written out ([falsy]).
    - An [async] method is a function of the world that returns, throws or
      diverges; the loops and recursive calls that wait for the network or
      for a timer take fuel, and running out of it is divergence. A loop
      that the engine itself bounds (a full array, a full call stack) is
      recursive on that bound. *)

From Stdlib Require Import ZArith NArith Lia Ascii DecimalString DecimalPos DecimalN.
From stdpp Require Import base numbers list strings gmap fin_maps.

Open Scope string_scope.
Open Scope list_scope.
Open Scope nat_scope.

(** ** Strings and truthiness *)

(** [!s] for a JavaScript string: only the empty string is falsy. *)
Definition falsy (s : string) : bool :=
  match s with
  | EmptyString => true
  | String _ _ => false
  end.

(** [!x] for [string | null | undefined]. *)
Definition falsy_opt (x : option string) : bool :=
  match x with
  | None => true
  | Some s => falsy s
  end.

(** [x || d] on [string | null | undefined]. *)
Definition or_else (x : option string) (d : string) : string :=
  match x with
  | None => d
  | Some s => if falsy s then d else s
  end.

(** [x || null] on [string | null | undefined]. *)
Definition or_null (x : option string) : option string :=
  match x with
  | None => None
  | Some s => if falsy s then None else Some s
  end.

(** ** Extracted values and records

    [SelectorResult.value] is [string | string[] | null]; a [ScrapedItem]
    is a dictionary from selector names to such values. *)

Inductive Value : Type :=
| VStr (s : string)
| VArr (l : list string)
| VNull.

Record SelectorResult : Type := mkResult {
  name : string;
  value : Value;
}.

Abbreviation ScrapedItem := (gmap string Value).

(** ** The record structurer ([structureResults]) *)

Module Structurer.

(** The first loop: [maxLength] starts at 1 and is raised by every longer
    result list. *)
Definition maxLength (selectorResults : gmap string (list SelectorResult)) : nat :=
  map_fold (fun _ results (acc : nat) =>
              if (acc <? length results)%nat then length results else acc)
           1 selectorResults.

(** [results[i].value]; the index is guarded by the caller. *)
Definition value_at (results : list SelectorResult) (i : nat) : Value :=
  match results !! i with
  | Some r => value r
  | None => VNull
  end.

(** The body of the inner loop: what is stored under a key for row [i]. *)
Definition cell (i : nat) (results : list SelectorResult) : Value :=
  if (i <? length results)%nat then value_at results i
  else if (length results =? 1)%nat then value_at results 0
  else VNull.

(** The inner loop: one item, filled key by key. *)
Definition item_at (selectorResults : gmap string (list SelectorResult)) (i : nat)
  : ScrapedItem :=
  map_fold (fun key results item => <[key := cell i results]> item) ∅ selectorResults.

Definition structureResults (selectorResults : gmap string (list SelectorResult))
  : list ScrapedItem :=
  (fun i => item_at selectorResults i) <$> seq 0 (maxLength selectorResults).

(** The specification's wording of the same thing. *)

Definition longest (selectorResults : gmap string (list SelectorResult)) : nat :=
  max_list ((fun kv => length kv.2) <$> map_to_list selectorResults).


Lemma maxLength_longest (m : gmap string (list SelectorResult)) :
  maxLength m = Nat.max 1 (longest m).
Proof.
  unfold maxLength, longest. rewrite map_fold_foldr.
  induction (map_to_list m) as [|[k rs] l IH]; simpl; [done|].
  rewrite IH. set (n := max_list _).
  destruct (Nat.ltb_spec (Nat.max 1 n) (length rs)); lia.
Qed.

Lemma longest_bounds (m : gmap string (list SelectorResult)) k rs :
  m !! k = Some rs → length rs <= longest m.
Proof.
  intros H. unfold longest. apply max_list_elem_of_le.
  apply list_elem_of_fmap. exists (k, rs). split; [done|].
  by apply elem_of_map_to_list.
Qed.

Lemma longest_attained (m : gmap string (list SelectorResult)) :
  longest m = 0 ∨ ∃ k rs, m !! k = Some rs ∧ length rs = longest m.
Proof.
  unfold longest.
  destruct (map_to_list m) as [|kv l] eqn:E; [by left|right].
  assert (Hin : max_list ((λ kv, length kv.2) <$> kv :: l)
                ∈ (λ kv, length kv.2) <$> kv :: l)
    by (apply max_list_elem_of; done).
  apply list_elem_of_fmap in Hin as [[k rs] [Heq Hin]].
  exists k, rs. split; [|done].
  apply elem_of_map_to_list. by rewrite E.
Qed.

Lemma item_at_lookup (m : gmap string (list SelectorResult)) i key :
  item_at m i !! key = cell i <$> m !! key.
Proof.
  unfold item_at.
  apply (map_fold_weak_ind
           (fun (item : ScrapedItem) (m : gmap string (list SelectorResult)) =>
              item !! key = cell i <$> m !! key)).
  - by rewrite !lookup_empty.
  - intros k rs m' item Hk IH.
    destruct (decide (k = key)) as [->|Hne].
    + by rewrite !lookup_insert_eq.
    + by rewrite !lookup_insert_ne.
Qed.


End Structurer.

(** ** More on strings *)

(** [s.includes(sub)]. *)
Definition includes (sub s : string) : bool :=
  match String.index 0 sub s with
  | Some _ => true
  | None => false
  end.

(** [s.replace(pat, rep)] for a string pattern: the first occurrence only.
    The replacements used here are decimal numerals, which hold no [$]. *)
Definition replace_first (pat rep s : string) : string :=
  match String.index 0 pat s with
  | Some i =>
      String.substring 0 i s +:+ rep +:+
      String.substring (i + String.length pat)
                       (String.length s - (i + String.length pat)) s
  | None => s
  end.

(** White space as [String.prototype.trim] sees it, among the code units
    below 256: tab, line feed, vertical tab, form feed, carriage return,
    space and no-break space. *)
Definition is_white (c : ascii) : bool :=
  let n := nat_of_ascii c in
  ((9 <=? n)%nat && (n <=? 13)%nat) || (n =? 32)%nat || (n =? 160)%nat.

Fixpoint trimStart (s : string) : string :=
  match s with
  | EmptyString => EmptyString
  | String c s' => if is_white c then trimStart s' else s
  end.

Fixpoint trimEnd (s : string) : string :=
  match s with
  | EmptyString => EmptyString
  | String c s' =>
      match trimEnd s' with
      | EmptyString => if is_white c then EmptyString else String c EmptyString
      | t => String c t
      end
  end.

Definition trim (s : string) : string := trimEnd (trimStart s).

(** [n.toString()] for a non-negative integer below 10^21, where it is the
    decimal numeral of [n] (from 10^21 on JavaScript writes a number with
    an exponent; the statements that depend on the numeral of a number
    that is not bounded by the code carry that bound). *)
Definition toString (n : N) : string := NilEmpty.string_of_uint (N.to_uint n).

(** ** Thrown values

    What a [catch] clause can receive: an [Error] instance (axios errors
    are [Error]s that may carry a [response] with a status and the [error]
    field of its body), a string, or some other object. *)

Record Response : Type := mkResponse {
  resp_status : N;
  resp_error : option string;      (* response.data?.error *)
}.

Inductive JsValue : Type :=
| JsError (message : string) (response : option Response)
| JsString (s : string)
| JsObject (response : option Response) (request : bool) (message : option string)
| JsOther.

Definition new_Error (message : string) : JsValue := JsError message None.

(** A [RangeError] is an [Error]; the handlers read its message only. *)
Definition new_RangeError (message : string) : JsValue := JsError message None.

(** What [push] throws on an array that is full. *)
Definition array_full : JsValue := new_RangeError "Invalid array length".

(** What a call throws when the call stack is exhausted. *)
Definition stack_overflow : JsValue :=
  new_RangeError "Maximum call stack size exceeded".

(** ** The object that gathers the results of a page ([selectorResults])

    Its own properties, each a list of results, and the array that has
    become its prototype, if any. *)

Record Results : Type := mkResults {
  res_own : gmap string (list SelectorResult);
  res_proto : option (list SelectorResult);
}.

(** [{}] *)
Definition no_results : Results := {| res_own := ∅; res_proto := None |}.

(** [selectorResults[name] = results]. Every name makes an own property,
    except [__proto__], which is the accessor every object inherits from
    [Object.prototype]: assigning an array to it makes that array the
    prototype of the object. *)
Definition set_result (nm : string) (results : list SelectorResult) (o : Results)
  : Results :=
  if String.eqb nm "__proto__"
  then {| res_own := res_own o; res_proto := Some results |}
  else {| res_own := <[nm := results]> (res_own o); res_proto := res_proto o |}.

(** The keys that [for (const key in selectorResults)] visits after the
    object's own: the indices of the array that is its prototype ([length]
    is not enumerable, and neither is anything in [Array.prototype] or
    [Object.prototype]). *)
Definition inherited_keys (o : Results) : list string :=
  match res_proto o with
  | Some arr => (fun i => toString (N.of_nat i)) <$> seq 0 (length arr)
  | None => []
  end.

(** [structureResults] on that object. Under an inherited key
    [selectorResults[key]] is an element of the prototype array, a
    [SelectorResult], whose [length] is undefined: the comparison with
    [maxLength] is false, and so are [i < results.length] and
    [results.length === 1], so that every row gets null under that key. An
    own property of the same name is visited instead of the inherited
    one. *)
Definition structureResults (o : Results) : list ScrapedItem :=
  (fun item : ScrapedItem =>
     item ∪ list_to_map ((fun key => (key, VNull)) <$> inherited_keys o))
  <$> Structurer.structureResults (res_own o).

(** ** The plan ([types/scraper], as the slice and the service use it) *)

Record SelectorConfig : Type := mkSelector {
  sel_id : string;
  sel_name : string;
  sel_type : string;
  sel_value : string;
  sel_attribute : option string;
  sel_multiple : bool;
}.

Record PaginationConfig : Type := mkPagination {
  pg_enabled : bool;
  pg_type : string;
  pg_selector : option string;
  pg_maxPages : option N;
}.

Record RateLimitConfig : Type := mkRateLimit {
  requestDelay : N;
  concurrentRequests : N;
  timeoutMs : N;
  retries : N;
}.

Record ScraperConfig : Type := mkConfig {
  url : string;
  selectors : list SelectorConfig;
  pagination : option PaginationConfig;
  rateLimit : RateLimitConfig;
  headers : gmap string string;
}.

(** ** The store slice ([scraperSlice.ts]) *)

Inductive Status : Type := Idle | Running | Paused | Completed | Error.

Record Progress : Type := mkProgress {
  current : N;
  total : N;
  startTime : option Z;
  endTime : option Z;
}.

Record HistoryEntry : Type := mkHistory {
  h_id : string;
  h_url : string;
  h_timestamp : Z;
  h_itemCount : nat;
}.

Record ScraperState : Type := mkState {
  config : ScraperConfig;
  status : Status;
  data : list ScrapedItem;
  error : option string;
  progress : Progress;
  history : list HistoryEntry;
}.

Module Slice.

Definition userAgent : string :=
  "Mozilla/5.0 (Windows NT 10.0; Win64; x64) AppleWebKit/537.36 (KHTML, like Gecko) Chrome/91.0.4472.124 Safari/537.36".

Definition initialState : ScraperState :=
  {| config :=
       {| url := EmptyString;
          selectors := [];
          pagination := Some {| pg_enabled := false; pg_type := "button";
                                pg_selector := Some EmptyString;
                                pg_maxPages := Some 1%N |};
          rateLimit := {| requestDelay := 1000; concurrentRequests := 1;
                          timeoutMs := 30000; retries := 3 |};
          headers := {[ "User-Agent" := userAgent ]} |};
     status := Idle;
     data := [];
     error := None;
     progress := {| current := 0; total := 0; startTime := None; endTime := None |};
     history := [] |}.

Definition with_config (f : ScraperConfig → ScraperConfig) (s : ScraperState) :=
  {| config := f (config s); status := status s; data := data s;
     error := error s; progress := progress s; history := history s |}.

(** Configuration actions *)

Definition setUrl (payload : string) (s : ScraperState) : ScraperState :=
  with_config (fun c => {| url := payload; selectors := selectors c;
                           pagination := pagination c; rateLimit := rateLimit c;
                           headers := headers c |}) s.

Definition with_selectors (f : list SelectorConfig → list SelectorConfig)
  (s : ScraperState) : ScraperState :=
  with_config (fun c => {| url := url c; selectors := f (selectors c);
                           pagination := pagination c; rateLimit := rateLimit c;
                           headers := headers c |}) s.

(** The payload has no [id]; a fresh one is drawn. *)
Definition addSelector (uuid : string) (payload : SelectorConfig) : ScraperState → ScraperState :=
  with_selectors (fun l =>
    l ++ [ {| sel_id := uuid; sel_name := sel_name payload;
              sel_type := sel_type payload; sel_value := sel_value payload;
              sel_attribute := sel_attribute payload;
              sel_multiple := sel_multiple payload |} ]).

Fixpoint replace_by_id (payload : SelectorConfig) (l : list SelectorConfig) :=
  match l with
  | [] => []
  | x :: l' =>
      if String.eqb (sel_id x) (sel_id payload) then payload :: l'
      else x :: replace_by_id payload l'
  end.

Definition updateSelector (payload : SelectorConfig) : ScraperState → ScraperState :=
  with_selectors (replace_by_id payload).

Definition removeSelector (payload : string) : ScraperState → ScraperState :=
  with_selectors (List.filter (fun x => negb (String.eqb (sel_id x) payload))).

Definition setPaginationConfig (payload : PaginationConfig) : ScraperState → ScraperState :=
  with_config (fun c => {| url := url c; selectors := selectors c;
                           pagination := Some payload; rateLimit := rateLimit c;
                           headers := headers c |}).

Definition setRateLimitConfig (payload : RateLimitConfig) : ScraperState → ScraperState :=
  with_config (fun c => {| url := url c; selectors := selectors c;
                           pagination := pagination c; rateLimit := payload;
                           headers := headers c |}).

Definition setHeaders (payload : gmap string string) : ScraperState → ScraperState :=
  with_config (fun c => {| url := url c; selectors := selectors c;
                           pagination := pagination c; rateLimit := rateLimit c;
                           headers := payload |}).

(** Status actions; [now] is [Date.now()]. *)

Definition startScraping (now : Z) (s : ScraperState) : ScraperState :=
  {| config := config s; status := Running; data := []; error := None;
     progress := {| current := 0; total := 0; startTime := Some now; endTime := None |};
     history := history s |}.

Definition with_status (st : Status) (s : ScraperState) : ScraperState :=
  {| config := config s; status := st; data := data s; error := error s;
     progress := progress s; history := history s |}.

Definition pauseScraping : ScraperState → ScraperState := with_status Paused.

Definition resumeScraping : ScraperState → ScraperState := with_status Running.

Definition with_endTime (now : Z) (p : Progress) : Progress :=
  {| current := current p; total := total p; startTime := startTime p;
     endTime := Some now |}.

Definition stopScraping (now : Z) (s : ScraperState) : ScraperState :=
  {| config := config s; status := Idle; data := data s; error := error s;
     progress := with_endTime now (progress s); history := history s |}.

Definition completeScraping (now : Z) (uuid : string) (s : ScraperState) : ScraperState :=
  {| config := config s; status := Completed; data := data s; error := error s;
     progress := with_endTime now (progress s);
     history := history s ++
       [ {| h_id := uuid; h_url := url (config s); h_timestamp := now;
            h_itemCount := length (data s) |} ] |}.

(** Data actions *)

Definition with_data (f : list ScrapedItem → list ScrapedItem) (s : ScraperState) :=
  {| config := config s; status := status s; data := f (data s);
     error := error s; progress := progress s; history := history s |}.

Definition setScrapedData (payload : list ScrapedItem) := with_data (fun _ => payload).

Definition appendScrapedData (payload : list ScrapedItem) := with_data (fun d => d ++ payload).

Definition clearScrapedData := with_data (fun _ => []).

(** Progress actions *)

Definition updateProgress (cur tot : N) (s : ScraperState) : ScraperState :=
  {| config := config s; status := status s; data := data s; error := error s;
     progress := {| current := cur; total := tot;
                    startTime := startTime (progress s);
                    endTime := endTime (progress s) |};
     history := history s |}.

(** Error actions *)

Definition setError (payload : string) (s : ScraperState) : ScraperState :=
  {| config := config s; status := Error; data := data s; error := Some payload;
     progress := progress s; history := history s |}.

Definition clearError (s : ScraperState) : ScraperState :=
  {| config := config s; status := status s; data := data s; error := None;
     progress := progress s; history := history s |}.

Definition resetScraper (s : ScraperState) : ScraperState := initialState.

(** The actions, and the reducer that [store.dispatch] runs. *)

Inductive Action : Type :=
| SetUrl (payload : string)
| AddSelector (payload : SelectorConfig)
| UpdateSelector (payload : SelectorConfig)
| RemoveSelector (payload : string)
| SetPaginationConfig (payload : PaginationConfig)
| SetRateLimitConfig (payload : RateLimitConfig)
| SetHeaders (payload : gmap string string)
| StartScraping
| PauseScraping
| ResumeScraping
| StopScraping
| CompleteScraping
| SetScrapedData (payload : list ScrapedItem)
| AppendScrapedData (payload : list ScrapedItem)
| ClearScrapedData
| UpdateProgress (cur tot : N)
| SetError (payload : string)
| ClearError
| ResetScraper.

Definition reducer (now : Z) (uuid : string) (a : Action) : ScraperState → ScraperState :=
  match a with
  | SetUrl p => setUrl p
  | AddSelector p => addSelector uuid p
  | UpdateSelector p => updateSelector p
  | RemoveSelector p => removeSelector p
  | SetPaginationConfig p => setPaginationConfig p
  | SetRateLimitConfig p => setRateLimitConfig p
  | SetHeaders p => setHeaders p
  | StartScraping => startScraping now
  | PauseScraping => pauseScraping
  | ResumeScraping => resumeScraping
  | StopScraping => stopScraping now
  | CompleteScraping => completeScraping now uuid
  | SetScrapedData p => setScrapedData p
  | AppendScrapedData p => appendScrapedData p
  | ClearScrapedData => clearScrapedData
  | UpdateProgress c t => updateProgress c t
  | SetError p => setError p
  | ClearError => clearError
  | ResetScraper => resetScraper
  end.

End Slice.

(** ** The service's own state ([ScraperService]) *)

Record ScraperServiceConfig : Type := mkServiceConfig {
  baseURL : option string;
  proxyURL : option string;
  timeout : option N;
  maxRetries : option N;
  userAgent : option string;
  cookies : option string;
}.

Record Service : Type := mkService {
  isRunning : bool;
  isPaused : bool;
  shouldStop : bool;
  currentPage : N;
  totalItems : N;
  processedItems : N;
  serviceConfig : ScraperServiceConfig;
}.

Definition defaultServiceConfig : ScraperServiceConfig :=
  {| baseURL := Some "http://localhost:5173";
     proxyURL := Some "http://localhost:8000/proxy";
     timeout := Some 30000%N;
     maxRetries := Some 3%N;
     userAgent := Some Slice.userAgent;
     cookies := None |}.

(** The singleton the module exports: [new ScraperService()]. *)
Definition scraperService : Service :=
  {| isRunning := false; isPaused := false; shouldStop := false;
     currentPage := 1; totalItems := 0; processedItems := 0;
     serviceConfig := defaultServiceConfig |}.

(** ** The world a run lives in

    A run is one asynchronous call. Between two of its suspension points
    (a timer or the network) nothing else runs; at a suspension point the
    caller may call the service's public methods or dispatch to the store.
    The world therefore holds the store, the service, what the run has done
    so far ([trace]) and what the outside will do at each coming suspension
    ([sched], one list of commands per suspension). *)

Inductive Event : Type :=
| EvGet (requestUrl : string) (tmo : option N) (hdrs : gmap string string)
| EvSleep (ms : N)
| EvLog (msg : string)
| EvWarn (msg : string)
| EvError (msg : string).

Inductive Cmd : Type :=
| CallPause
| CallResume
| CallStop
| Dispatch (a : Slice.Action).

Record World : Type := mkWorld {
  store : ScraperState;
  svc : Service;
  trace : list Event;
  sched : list (list Cmd);
  ticks : nat;       (* suspensions so far; indexes the clock *)
  gets : nat;        (* requests issued so far; indexes the network *)
  uuids : nat;       (* identifiers drawn so far *)
}.

Definition with_store (f : ScraperState → ScraperState) (w : World) : World :=
  {| store := f (store w); svc := svc w; trace := trace w; sched := sched w;
     ticks := ticks w; gets := gets w; uuids := uuids w |}.

Definition with_svc (f : Service → Service) (w : World) : World :=
  {| store := store w; svc := f (svc w); trace := trace w; sched := sched w;
     ticks := ticks w; gets := gets w; uuids := uuids w |}.

Definition with_event (ev : Event) (w : World) : World :=
  {| store := store w; svc := svc w; trace := trace w ++ [ev]; sched := sched w;
     ticks := ticks w; gets := gets w; uuids := uuids w |}.

Definition set_isRunning (b : bool) (s : Service) : Service :=
  {| isRunning := b; isPaused := isPaused s; shouldStop := shouldStop s;
     currentPage := currentPage s; totalItems := totalItems s;
     processedItems := processedItems s; serviceConfig := serviceConfig s |}.

Definition set_isPaused (b : bool) (s : Service) : Service :=
  {| isRunning := isRunning s; isPaused := b; shouldStop := shouldStop s;
     currentPage := currentPage s; totalItems := totalItems s;
     processedItems := processedItems s; serviceConfig := serviceConfig s |}.

Definition set_shouldStop (b : bool) (s : Service) : Service :=
  {| isRunning := isRunning s; isPaused := isPaused s; shouldStop := b;
     currentPage := currentPage s; totalItems := totalItems s;
     processedItems := processedItems s; serviceConfig := serviceConfig s |}.

(** What [axios.get] settles to. *)
Inductive GetOutcome : Type :=
| Resolved (st : N) (body : string)
| Rejected (e : JsValue).

(** A call into a library that may throw. *)
Inductive JsResult (A : Type) : Type :=
| Ok (a : A)
| Throws (e : JsValue).
Arguments Ok {A} a.
Arguments Throws {A} e.

(** A parsed node, as [extractValueFromElement] reads it through cheerio:
    [$el.text()], [$el.html()] and [$el.attr(name)]. *)
Record Element : Type := mkElement {
  el_text : string;
  el_html : option string;
  el_attribs : gmap string string;
}.

(** A compiled global regular expression, seen from [exec]: given the
    subject and [lastIndex], the leftmost match at or after [lastIndex], as
    its index and its text. *)
Definition Matcher : Type := string → nat → option (nat * string).

(** How a piece of the run ends. [Diverged] stands for a computation that
    does not end (the embedding ran out of fuel); no [catch] sees it. *)
Inductive Outcome (A : Type) : Type :=
| Returned (a : A) (w : World)
| Thrown (e : JsValue) (w : World)
| Diverged.
Arguments Returned {A} a w.
Arguments Thrown {A} e w.
Arguments Diverged {A}.

Definition M (A : Type) : Type := World → Outcome A.

Definition ret {A} (a : A) : M A := fun w => Returned a w.

Definition bind {A B} (m : M A) (k : A → M B) : M B :=
  fun w =>
    match m w with
    | Returned a w' => k a w'
    | Thrown e w' => Thrown e w'
    | Diverged => Diverged
    end.

Notation "'let*' x ':=' m 'in' k" := (bind m (fun x => k))
  (at level 10, x name, m at level 100, k at level 200).
Notation "m ';;;' k" := (bind m (fun _ => k))
  (at level 100, k at level 200, right associativity).

Definition throw {A} (e : JsValue) : M A := fun w => Thrown e w.

Definition diverge {A} : M A := fun _ => Diverged.

Definition lift {A} (r : JsResult A) : M A :=
  match r with
  | Ok a => ret a
  | Throws e => throw e
  end.

(** [try { m } catch (e) { h e }] *)
Definition try_catch {A} (m : M A) (h : JsValue → M A) : M A :=
  fun w =>
    match m w with
    | Thrown e w' => h e w'
    | o => o
    end.

(** [try { m } finally { f }] *)
Definition try_finally {A} (m : M A) (f : M unit) : M A :=
  fun w =>
    match m w with
    | Returned a w' => (f ;;; ret a) w'
    | Thrown e w' => (f ;;; throw e) w'
    | Diverged => Diverged
    end.

Definition get_svc : M Service := fun w => Returned (svc w) w.

Definition modify_svc (f : Service → Service) : M unit :=
  fun w => Returned tt (with_svc f w).

Definition emit (ev : Event) : M unit := fun w => Returned tt (with_event ev w).

(** ** The service's code *)

(** What the run does not own: the clock ([Date.now()], read at a given
    suspension count), [uuidv4], the network behind [axios.get] (the
    [n]-th request, by its address), [encodeURIComponent], cheerio
    ([cheerio.load] and the query [$(selector)]), the [RegExp]
    constructor with the [g] flag, and two bounds of the engine: the number
    of elements an array takes before [push] throws a [RangeError]
    (2^32 - 1 by the language, less in an engine that is short of memory),
    and the number of nested calls of [store.dispatch] the call stack has
    room for when a method of the service is called. *)
Record Env : Type := mkEnv {
  clock : nat → Z;
  uuidv4 : nat → string;
  axios_get : nat → string → GetOutcome;
  encodeURIComponent : string → string;
  Doc : Type;
  cheerio_load : string → JsResult Doc;
  cheerio_select : Doc → string → JsResult (list Element);
  RegExp_new : string → JsResult Matcher;
  array_limit : nat;
  stack_room : nat;
}.

Section ScraperService.

Variable env : Env.

(** [store.dispatch(action)] for the actions the run itself dispatches
    ([setError], [updateProgress], [appendScrapedData],
    [completeScraping]): the store's middleware passes the action to the
    reducer and has nothing more to do for them. The one action the service
    dispatches that the middleware acts on is [stopScraping]; see
    [stopScraping_nested]. *)
Definition draws_uuid (a : Slice.Action) : bool :=
  match a with
  | Slice.AddSelector _ | Slice.CompleteScraping => true
  | _ => false
  end.

Definition dispatch_world (a : Slice.Action) (w : World) : World :=
  {| store := Slice.reducer (clock env (ticks w)) (uuidv4 env (uuids w)) a (store w);
     svc := svc w; trace := trace w; sched := sched w; ticks := ticks w;
     gets := gets w;
     uuids := if draws_uuid a then S (uuids w) else uuids w |}.

Definition dispatch (a : Slice.Action) : M unit :=
  fun w => Returned tt (dispatch_world a w).

(** The public methods other than [startScraping]. *)

Definition pauseScraping_world : World → World := with_svc (set_isPaused true).

Definition resumeScraping_world : World → World := with_svc (set_isPaused false).

Definition pauseScraping : M unit := fun w => Returned tt (pauseScraping_world w).
Definition resumeScraping : M unit := fun w => Returned tt (resumeScraping_world w).

(** [stopScraping]. It sets the two flags and dispatches [stopScraping] to
    the store. That dispatch goes through the store's middleware, which
    passes the action to the reducer and then, the action being
    [stopScraping], calls [scraperService.stopScraping()]: the method is
    entered again, and again, until the call stack is exhausted; the
    [RangeError] then unwinds every one of these calls and reaches the
    first caller. [room] is the number of dispatches the stack has still
    room for. *)
Fixpoint stopScraping_nested (room : nat) : M unit :=
  fun w =>
    let w1 := with_svc (set_isPaused false) (with_svc (set_shouldStop true) w) in
    match room with
    | 0 => Thrown stack_overflow w1
    | S room' => stopScraping_nested room' (dispatch_world Slice.StopScraping w1)
    end.

Definition stopScraping : M unit := stopScraping_nested (stack_room env).

(** The world a call from outside leaves to the run, whether the call
    returns or throws to its caller. *)
Definition world_after {A} (m : M A) (w : World) : World :=
  match m w with
  | Returned _ w' | Thrown _ w' => w'
  | Diverged => w
  end.

Definition stopScraping_world : World → World := world_after stopScraping.

(** What the outside does during one suspension: it calls a method of the
    service, or an action it dispatches reaches the reducer (for the
    actions the middleware forwards, the call into the service is a command
    of its own; a second run started meanwhile is not followed). *)
Definition run_cmd (w : World) (c : Cmd) : World :=
  match c with
  | CallPause => pauseScraping_world w
  | CallResume => resumeScraping_world w
  | CallStop => stopScraping_world w
  | Dispatch a => dispatch_world a w
  end.

Definition suspend : M unit :=
  fun w =>
    let w1 := {| store := store w; svc := svc w; trace := trace w;
                 sched := tail (sched w); ticks := S (ticks w);
                 gets := gets w; uuids := uuids w |} in
    Returned tt (fold_left run_cmd (hd [] (sched w)) w1).

(** [await new Promise(resolve => setTimeout(resolve, ms))] *)
Definition sleep (ms : N) : M unit := emit (EvSleep ms) ;;; suspend.

(** [handleError] *)
Definition errorMessage (error : JsValue) : string :=
  match error with
  | JsError message _ => message
  | JsString s => s
  | JsObject (Some r) _ message =>
      "Server responded with error " +:+ toString (resp_status r) +:+ ": " +:+
      match or_null (resp_error r) with
      | Some e => e
      | None => default "undefined" message
      end
  | JsObject None true _ =>
      "No response received from server. Check your network connection or the proxy server."
  | JsObject None false (Some m) => if falsy m then "An unknown error occurred" else m
  | JsObject None false None => "An unknown error occurred"
  | JsOther => "An unknown error occurred"
  end.

Definition handleError (error : JsValue) : M unit :=
  emit (EvError ("Scraping error: " +:+ errorMessage error)) ;;;
  dispatch (Slice.SetError (errorMessage error)).

(** [applyRateLimit] *)
Definition applyRateLimit (rl : RateLimitConfig) : M unit :=
  if (0 <? requestDelay rl)%N then sleep (requestDelay rl) else ret tt.

(** [fetchUrl] *)

Definition response_of (error : JsValue) : option Response :=
  match error with
  | JsError _ r => r
  | JsObject r _ _ => r
  | _ => None
  end.

Definition message_of (error : JsValue) : option string :=
  match error with
  | JsError m _ => Some m
  | JsObject _ _ m => m
  | _ => None
  end.

Definition has_status (error : JsValue) (st : N) : bool :=
  match response_of error with
  | Some r => (resp_status r =? st)%N
  | None => false
  end.

Definition proxy_message (error : JsValue) (fallback : string) : string :=
  "Proxy error: " +:+
  or_else (match response_of error with Some r => resp_error r | None => None end)
          fallback.

Definition requestUrl_of (cfg : ScraperServiceConfig) (u : string) : string :=
  match or_null (proxyURL cfg) with
  | Some p => p +:+ "?url=" +:+ encodeURIComponent env u
  | None => u
  end.

(** [{ 'User-Agent': userAgent, ...headers }] *)
Definition request_headers (cfg : ScraperServiceConfig) (hs : gmap string string)
  : gmap string string :=
  hs ∪ match userAgent cfg with
       | Some ua => {[ "User-Agent" := ua ]}
       | None => ∅
       end.

(** [await axios.get(requestUrl, config)] *)
Definition axios_get_m (requestUrl : string) (tmo : option N)
  (hs : gmap string string) : M (N * string) :=
  fun w =>
    let w1 := {| store := store w; svc := svc w;
                 trace := trace w ++ [EvGet requestUrl tmo hs];
                 sched := sched w; ticks := ticks w; gets := S (gets w);
                 uuids := uuids w |} in
    match suspend w1 with
    | Returned _ w2 =>
        match axios_get env (gets w) requestUrl with
        | Resolved st body => Returned (st, body) w2
        | Rejected e => Thrown e w2
        end
    | Thrown e w2 => Thrown e w2
    | Diverged => Diverged
    end.

(** [this.serviceConfig.maxRetries || 3] *)
Definition retry_budget (cfg : ScraperServiceConfig) : N :=
  match maxRetries cfg with
  | Some n => if (n =? 0)%N then 3%N else n
  | None => 3%N
  end.

Fixpoint fetchUrl (fuel : nat) (u : string) (hs : gmap string string)
  (retryCount : N) : M (option string) :=
  match fuel with
  | 0 => diverge
  | S fuel' =>
      try_catch
        (let* s := get_svc in
         let cfg := serviceConfig s in
         let* response := axios_get_m (requestUrl_of cfg u) (timeout cfg)
                                      (request_headers cfg hs) in
         if (response.1 =? 200)%N then ret (Some response.2)
         else throw (new_Error ("Received status code " +:+ toString response.1)))
        (fun error =>
           let* s := get_svc in
           let maxRetries := retry_budget (serviceConfig s) in
           (if has_status error 502 then
              handleError (new_Error (proxy_message error "Bad Gateway"))
            else if has_status error 504 then
              handleError (new_Error (proxy_message error "Gateway Timeout"))
            else if includes "Network Error" (default EmptyString (message_of error)) then
              handleError (new_Error
                "Proxy server connection failed. Make sure the proxy server is running.")
            else ret tt) ;;;
           if (retryCount <? maxRetries)%N then
             let delay := (2 ^ retryCount * 1000)%N in
             emit (EvLog ("Retrying " +:+ u +:+ " in " +:+ toString delay +:+
                          "ms... (" +:+ toString (retryCount + 1) +:+ "/" +:+
                          toString maxRetries +:+ ")")) ;;;
             sleep delay ;;;
             fetchUrl fuel' u hs (retryCount + 1)
           else
             handleError error ;;; ret None)
  end.

(** [extractValueFromElement]. Reading a parsed node does not throw, so the
    [catch] of the source has nothing to do here. *)
Definition extractValueFromElement (element : Element) (attribute : string)
  : option string :=
  if String.eqb attribute "text" then Some (trim (el_text element))
  else if String.eqb attribute "html" then or_null (el_html element)
  else or_null (el_attribs element !! attribute).

(** [regex.exec(html)] on a global expression whose [lastIndex] is given:
    the text matched and the new [lastIndex], or [None] for [null]. *)
Definition exec (regex : Matcher) (html : string) (lastIndex : nat)
  : option (string * nat) :=
  if String.length html <? lastIndex then None
  else
    match regex html lastIndex with
    | Some (i, txt) => Some (txt, i + String.length txt)
    | None => None
    end.

(** [while ((match = regex.exec(html)) !== null) matches.push(match[0])].
    [room] is the number of elements [matches] can still take; [push] on a
    full array throws. Nothing else ends the loop when [exec] keeps
    returning a match. *)
Fixpoint collectMatches (room : nat) (regex : Matcher) (html : string)
  (lastIndex : nat) (matches : list string) : JsResult (list string) :=
  match exec regex html lastIndex with
  | Some (txt, lastIndex') =>
      match room with
      | 0 => Throws array_full
      | S room' => collectMatches room' regex html lastIndex' (matches ++ [txt])
      end
  | None => Ok matches
  end.

Definition collectMatches_m (regex : Matcher) (html : string) : M (list string) :=
  lift (collectMatches (array_limit env) regex html 0 []).

Definition push_value (nm : string) (v : option string) : list SelectorResult :=
  match v with
  | Some s => [mkResult nm (VStr s)]
  | None => []
  end.

(** [applySelector]. The calls that can throw, [$(selector.value)],
    [new RegExp(selector.value, 'g')] and [matches.push], come before
    anything is pushed to [results], so [results] is still empty when the
    [catch] returns it. *)
Definition applySelector (doc : Doc env) (html : string)
  (selector : SelectorConfig) : M (list SelectorResult) :=
  try_catch
    (if String.eqb (sel_type selector) "css" then
       let* elements := lift (cheerio_select env doc (sel_value selector)) in
       match elements with
       | [] => ret []
       | firstEl :: _ =>
           let attribute := or_else (sel_attribute selector) "text" in
           if sel_multiple selector then
             ret (concat ((fun el => push_value (sel_name selector)
                                       (extractValueFromElement el attribute))
                          <$> elements))
           else
             ret (push_value (sel_name selector)
                    (extractValueFromElement firstEl attribute))
       end
     else if String.eqb (sel_type selector) "xpath" then
       emit (EvWarn "XPath support requires additional libraries") ;;; ret []
     else if String.eqb (sel_type selector) "regex" then
       let* regex := lift (RegExp_new env (sel_value selector)) in
       let* matches := collectMatches_m regex html in
       match matches with
       | [] => ret []
       | first :: _ =>
           if sel_multiple selector then
             ret [mkResult (sel_name selector) (VArr matches)]
           else
             ret [mkResult (sel_name selector) (VStr first)]
       end
     else
       emit (EvWarn ("Unknown selector type: " +:+ sel_type selector)) ;;; ret [])
    (fun error => handleError error ;;; ret []).

(** The loop of [processSelectors] over the selectors. *)
Fixpoint applySelectors (doc : Doc env) (html : string)
  (sels : list SelectorConfig) (selectorResults : Results) : M Results :=
  match sels with
  | [] => ret selectorResults
  | selector :: rest =>
      let* results := applySelector doc html selector in
      applySelectors doc html rest
        (if 0 <? length results
         then set_result (sel_name selector) results selectorResults
         else selectorResults)
  end.

(** [processSelectors] *)
Definition processSelectors (html : string) (sels : list SelectorConfig)
  : M (list ScrapedItem) :=
  try_catch
    (let* doc := lift (cheerio_load env html) in
     let* selectorResults := applySelectors doc html sels no_results in
     ret (structureResults selectorResults))
    (fun error => handleError error ;;; ret []).

Definition add_items (n : N) (s : Service) : Service :=
  {| isRunning := isRunning s; isPaused := isPaused s; shouldStop := shouldStop s;
     currentPage := currentPage s; totalItems := (totalItems s + n)%N;
     processedItems := (processedItems s + n)%N;
     serviceConfig := serviceConfig s |}.

(** [scrapeUrl] *)
Definition scrapeUrl (fuel : nat) (u : string) (sels : list SelectorConfig)
  (hs : gmap string string) : M unit :=
  try_catch
    (let* html := fetchUrl fuel u hs 0 in
     match or_null html with
     | None => throw (new_Error ("Failed to fetch content from " +:+ u))
     | Some html =>
         let* results := processSelectors html sels in
         modify_svc (add_items (N.of_nat (length results))) ;;;
         let* s := get_svc in
         dispatch (Slice.UpdateProgress (processedItems s) (totalItems s)) ;;;
         dispatch (Slice.AppendScrapedData results)
     end)
    (fun error => handleError error ;;; throw error).

(** [getNextPageUrl]. Nothing in its [try] can throw. *)
Definition getNextPageUrl (currentUrl : string) (pg : PaginationConfig)
  (nextPageNum : N) : option string :=
  if negb (pg_enabled pg) || falsy_opt (pg_selector pg) then None
  else if String.eqb (pg_type pg) "url" then
    Some (replace_first "{page}" (toString nextPageNum)
                        (default EmptyString (pg_selector pg)))
  else if String.eqb (pg_type pg) "button" then None
  else if String.eqb (pg_type pg) "infinite" then None
  else None.

(** The promise awaited while paused: [checkPause] looks at the flags, and
    when the run is still paused and not stopped it looks again 500 ms
    later. *)
Fixpoint checkPause (fuel : nat) : M unit :=
  match fuel with
  | 0 => diverge
  | S fuel' =>
      let* s := get_svc in
      if negb (isPaused s) || shouldStop s then ret tt
      else sleep 500 ;;; checkPause fuel'
  end.

(** [!pagination.maxPages || pagesScraped < pagination.maxPages] *)
Definition pages_left (pg : PaginationConfig) (pagesScraped : N) : bool :=
  match pg_maxPages pg with
  | None => true
  | Some m => (m =? 0)%N || (pagesScraped <? m)%N
  end.

(** The [while] loop of [startScraping], from the test of its condition. *)
Fixpoint crawlLoop (fuel : nat) (cfg : ScraperConfig) (pg : PaginationConfig)
  (nextPageUrl : option string) (pagesScraped : N) : M unit :=
  match fuel with
  | 0 => diverge
  | S fuel' =>
      let* s := get_svc in
      if negb (falsy_opt nextPageUrl) && isRunning s && negb (shouldStop s)
         && pages_left pg pagesScraped
      then
        let* stopped :=
          (if isPaused s then
             checkPause fuel' ;;;
             let* s' := get_svc in ret (shouldStop s')
           else ret false) in
        if (stopped : bool) then ret tt
        else
          applyRateLimit (rateLimit cfg) ;;;
          let next := getNextPageUrl (default EmptyString nextPageUrl) pg
                                     (pagesScraped + 1) in
          match or_null next with
          | Some u =>
              scrapeUrl fuel' u (selectors cfg) (headers cfg) ;;;
              crawlLoop fuel' cfg pg next (pagesScraped + 1)
          | None => crawlLoop fuel' cfg pg next pagesScraped
          end
      else ret tt
  end.

Definition begin_run (s : Service) : Service :=
  {| isRunning := true; isPaused := false; shouldStop := false;
     currentPage := 1; totalItems := 0; processedItems := 0;
     serviceConfig := serviceConfig s |}.

(** [pagination?.enabled && pagination.selector] *)
Definition paginated (cfg : ScraperConfig) : option PaginationConfig :=
  match pagination cfg with
  | Some pg =>
      if pg_enabled pg && negb (falsy_opt (pg_selector pg)) then Some pg else None
  | None => None
  end.

(** After the loop: [if (!this.shouldStop) store.dispatch(completeScraping())]. *)
Definition finish : M unit :=
  let* s := get_svc in
  if negb (shouldStop s) then dispatch Slice.CompleteScraping else ret tt.

(** [try { body } catch (error) { this.handleError(error) }
     finally { this.isRunning = false }] *)
Definition guarded (body : M unit) : M unit :=
  try_finally (try_catch body handleError) (modify_svc (set_isRunning false)).

(** [startScraping] *)
Definition startScraping (fuel : nat) (cfg : ScraperConfig) : M unit :=
  if falsy (url cfg) || (length (selectors cfg) =? 0) then
    dispatch (Slice.SetError "URL and at least one selector are required")
  else
    modify_svc begin_run ;;;
    guarded
      (scrapeUrl fuel (url cfg) (selectors cfg) (headers cfg) ;;;
       match paginated cfg with
       | Some pg => crawlLoop fuel cfg pg (Some (url cfg)) 1
       | None => ret tt
       end ;;;
       finish).

End ScraperService.

(** ** A small environment to run the code in

    Pages are lists of tagged nodes and a query is a tag name; an
    expression with an opening parenthesis is refused the way cheerio and
    [RegExp] refuse a malformed one. The regular expressions understood are
    a literal text and [c*] for one character [c]. The engine is small
    too. *)

Module Sample.

Definition clock (n : nat) : Z := Z.of_nat n.

Definition uuidv4 (n : nat) : string := "uuid-" +:+ toString (N.of_nat n).

Definition encodeURIComponent (s : string) : string := s.

Definition Doc : Type := list (string * Element).

Definition node (tag txt : string) : string * Element :=
  (tag, {| el_text := txt; el_html := Some txt; el_attribs := ∅ |}).

Definition page : Doc :=
  [ node "h1" " Shop "; node "li" "1"; node "li" "2"; node "li" "3";
    ("a", {| el_text := "next"; el_html := Some "next";
             el_attribs := {[ "href" := "/p2" ]} |});
    ("p", {| el_text := EmptyString; el_html := Some EmptyString;
             el_attribs := {[ "class" := EmptyString ]} |}) ].

Definition cheerio_load (html : string) : JsResult Doc := Ok page.

Definition malformed (expr : string) : bool := includes "(" expr.

Definition cheerio_select (doc : Doc) (sel : string) : JsResult (list Element) :=
  if malformed sel then Throws (new_Error ("Unmatched selector: " +:+ sel))
  else Ok (snd <$> List.filter (fun te => String.eqb (fst te) sel) doc).

(** The run of [c] at the head of [s]. *)
Fixpoint run_of (c : ascii) (s : string) : string :=
  match s with
  | String c' s' => if Ascii.eqb c c' then String c' (run_of c s') else EmptyString
  | EmptyString => EmptyString
  end.

Fixpoint drop_chars (n : nat) (s : string) : string :=
  match n, s with
  | S n', String _ s' => drop_chars n' s'
  | _, _ => s
  end.

Definition star (c : ascii) : Matcher :=
  fun s lastIndex => Some (lastIndex, run_of c (drop_chars lastIndex s)).

Definition literal (pat : string) : Matcher :=
  fun s lastIndex =>
    match String.index lastIndex pat s with
    | Some i => Some (i, pat)
    | None => None
    end.

Definition RegExp_new (pat : string) : JsResult Matcher :=
  if malformed pat then
    Throws (new_Error ("Invalid regular expression: /" +:+ pat +:+ "/: Unterminated group"))
  else
    match pat with
    | String c (String "*" EmptyString) => Ok (star c)
    | _ => Ok (literal pat)
    end.

(** A network that answers every request with the same page, and one that
    refuses every request. *)
Definition online (n : nat) (u : string) : GetOutcome := Resolved 200 "<html>".

Definition offline (n : nat) (u : string) : GetOutcome :=
  Rejected (new_Error "Network Error").

Definition world0 : World :=
  {| store := Slice.startScraping 0 Slice.initialState; svc := scraperService;
     trace := []; sched := []; ticks := 0; gets := 0; uuids := 0 |}.

Definition sel (nm ty v : string) (multiple : bool) : SelectorConfig :=
  {| sel_id := nm; sel_name := nm; sel_type := ty; sel_value := v;
     sel_attribute := None; sel_multiple := multiple |}.

Definition plan (u : string) (sels : list SelectorConfig)
  (pg : option PaginationConfig) : ScraperConfig :=
  {| url := u; selectors := sels; pagination := pg;
     rateLimit := {| requestDelay := 1000; concurrentRequests := 1;
                     timeoutMs := 30000; retries := 3 |};
     headers := ∅ |}.

(** The engine: arrays of at most 1000 elements, and room for 1000 nested
    dispatches. *)
Definition env (net : nat → string → GetOutcome) : Env :=
  mkEnv clock uuidv4 net encodeURIComponent Doc cheerio_load cheerio_select
        RegExp_new 1000 1000.

End Sample.

(** * Properties *)

(** ** Strings *)

Lemma substring_0_0 (s : string) : String.substring 0 0 s = EmptyString.
Proof. by destruct s. Qed.

Lemma substring_all (s : string) : String.substring 0 (String.length s) s = s.
Proof. induction s as [|c s IH]; simpl; [done|]. by rewrite IH. Qed.

Lemma append_cons (c : ascii) (s t : string) :
  String c s +:+ t = String c (s +:+ t).
Proof. reflexivity. Qed.

Lemma append_empty (t : string) : EmptyString +:+ t = t.
Proof. reflexivity. Qed.

Lemma substring_split (s : string) (i m : nat) :
  s = String.substring 0 i s +:+ String.substring i m s +:+
      String.substring (i + m) (String.length s - (i + m)) s.
Proof.
  revert i m. induction s as [|c s IH]; intros i m.
  - by destruct i, m.
  - destruct i as [|i].
    + destruct m as [|m]; simpl.
      * by rewrite substring_all.
      * rewrite append_cons. f_equal.
        rewrite (IH 0 m) at 1. by rewrite substring_0_0.
    + simpl. rewrite append_cons. f_equal. apply IH.
Qed.

Lemma substring_0_length (s : string) (i : nat) :
  i ≤ String.length s → String.length (String.substring 0 i s) = i.
Proof.
  revert i. induction s as [|c s IH]; intros [|i] H; simpl in *; try done; try lia.
  rewrite IH; lia.
Qed.

Lemma substring_beyond (s : string) (i m : nat) :
  String.length s ≤ i → String.substring i m s = EmptyString.
Proof.
  revert i m. induction s as [|c s IH]; intros i m H.
  - by destruct i, m.
  - destruct i as [|i]; simpl in *; [lia|]. apply IH. lia.
Qed.

Lemma string_of_uint_empty (d : Decimal.uint) :
  NilEmpty.string_of_uint d = EmptyString → d = Decimal.Nil.
Proof. by destruct d. Qed.

Lemma toString_nonempty (n : N) : toString n ≠ EmptyString.
Proof.
  unfold toString. intros H. apply string_of_uint_empty in H.
  destruct n as [|p]; [done|]. by apply (DecimalPos.Unsigned.to_uint_nonnil p).
Qed.

Lemma append_nonempty_r (s t : string) : t ≠ EmptyString → s +:+ t ≠ EmptyString.
Proof. destruct s; [done|]. rewrite append_cons. done. Qed.

Lemma append_nonempty_l (s t : string) : s ≠ EmptyString → s +:+ t ≠ EmptyString.
Proof. destruct s; [done|]. rewrite append_cons. done. Qed.

Lemma falsy_true (s : string) : falsy s = true ↔ s = EmptyString.
Proof. destruct s; simpl; split; congruence. Qed.

Example trim_both_ends : trim "  Shop 1 " = "Shop 1".
Proof. reflexivity. Qed.

Lemma trimStart_head (s : string) :
  match trimStart s with
  | String c _ => is_white c = false
  | EmptyString => True
  end.
Proof.
  induction s as [|c s IH]; simpl; [done|].
  destruct (is_white c) eqn:E; [exact IH|exact E].
Qed.

Lemma trimStart_trimEnd_head (s : string) :
  match trimEnd (trimStart s) with
  | String c _ => is_white c = false
  | EmptyString => True
  end.
Proof.
  pose proof (trimStart_head s) as H.
  destruct (trimStart s) as [|c t]; simpl; [done|].
  destruct (trimEnd t); [by rewrite H|exact H].
Qed.

(** What [replace] does: the text is unchanged when the pattern does not
    occur in it, and otherwise the first occurrence is replaced. *)
Lemma replace_first_spec (pat rep s : string) :
  pat ≠ EmptyString →
  ((∀ m, String.substring m (String.length pat) s ≠ pat) ∧
   replace_first pat rep s = s)
  ∨ (∃ pre post,
       s = pre +:+ pat +:+ post ∧
       (∀ m, m < String.length pre →
             String.substring m (String.length pat) s ≠ pat) ∧
       replace_first pat rep s = pre +:+ rep +:+ post).
Proof.
  intros Hpat. unfold replace_first.
  destruct (String.index 0 pat s) as [i|] eqn:E.
  - right.
    pose proof (String.index_correct1 _ _ _ _ E) as Hat.
    exists (String.substring 0 i s),
           (String.substring (i + String.length pat)
              (String.length s - (i + String.length pat)) s).
    assert (Hi : i ≤ String.length s).
    { destruct (Nat.le_gt_cases i (String.length s)) as [|Hgt]; [done|].
      rewrite substring_beyond in Hat by lia. by destruct pat. }
    split; [|split; [|done]].
    + pose proof (substring_split s i (String.length pat)) as Hs.
      by rewrite Hat in Hs.
    + intros m Hm. rewrite substring_0_length in Hm by done.
      apply (String.index_correct2 _ _ _ _ E); lia.
  - left. split; [|done]. intros m.
    apply (String.index_correct3 _ _ _ _ E); [done|lia].
Qed.

(** ** The pagination resolver *)

Example replace_first_once :
  replace_first "{page}" "3" "/p/{page}/q/{page}" = "/p/3/q/{page}".
Proof. reflexivity. Qed.

(** [s] is the decimal numeral of [n]: a sequence of digits that is not
    empty, has no leading zero (the numeral of 0 apart), and reads as [n].
    The reading is the library's and does not depend on [toString]. *)
Definition decimal_numeral (s : string) (n : N) : Prop :=
  N.of_uint <$> NilEmpty.uint_of_string s = Some n ∧
  s ≠ EmptyString ∧
  (s = "0" ∨ ∀ t, s ≠ String "0" t).

Lemma nzhead_head (d u : Decimal.uint) : Decimal.nzhead d ≠ Decimal.D0 u.
Proof. induction d; simpl; try done. Qed.

Lemma unorm_head (d : Decimal.uint) :
  Decimal.unorm d = Decimal.D0 Decimal.Nil ∨ ∀ u, Decimal.unorm d ≠ Decimal.D0 u.
Proof.
  unfold Decimal.unorm. pose proof (nzhead_head d) as H.
  destruct (Decimal.nzhead d) as [|u|u|u|u|u|u|u|u|u|u];
    [by left | by destruct (H u) | right; intros u0; discriminate ..].
Qed.

(** [toString] writes the decimal numeral, and nothing else is one. *)
Lemma toString_decimal (n : N) : decimal_numeral (toString n) n.
Proof.
  unfold decimal_numeral, toString. split; [|split].
  - rewrite NilEmpty.usu. simpl. by rewrite DecimalN.Unsigned.of_to.
  - apply toString_nonempty.
  - pose proof (DecimalN.Unsigned.to_of (N.to_uint n)) as H.
    rewrite DecimalN.Unsigned.of_to in H. rewrite H.
    destruct (unorm_head (N.to_uint n)) as [-> | Hne]; [by left|right].
    intros t. destruct (Decimal.unorm (N.to_uint n)); simpl; try done.
    by destruct (Hne u).
Qed.










(** ** The value of a matched node *)

(** The specification's wording: the trimmed text, the inner markup as it
    is (an empty one included), or the named attribute (null when the node
    does not carry it). *)
Definition described_value (element : Element) (attribute : string) : option string :=
  if String.eqb attribute "text" then Some (trim (el_text element))
  else if String.eqb attribute "html" then el_html element
  else el_attribs element !! attribute.

(** [s || null] *)
Definition nonempty_or_null (x : option string) : option string :=
  match x with
  | Some (String c s) => Some (String c s)
  | _ => None
  end.

Lemma or_null_nonempty (x : option string) : or_null x = nonempty_or_null x.
Proof. by destruct x as [[|c s]|]. Qed.

(** A node without content, carrying an empty [class]. *)
Definition blank : Element :=
  {| el_text := EmptyString; el_html := Some EmptyString;
     el_attribs := {[ "class" := EmptyString ]} |}.

(** C7, as stated, fails: the empty inner markup of a node is turned into
    null, not kept as a value, and so is an attribute the node carries with
    an empty value. *)
Lemma extractValueFromElement_empty_html :
  (described_value blank "html" = Some EmptyString ∧
   extractValueFromElement blank "html" = None) ∧
  (described_value blank "class" = Some EmptyString ∧
   extractValueFromElement blank "class" = None) ∧
  extractValueFromElement blank "html" ≠ described_value blank "html".
Proof. vm_compute. repeat split; congruence. Qed.

(** C7, amended. ['text'] yields the trimmed inner text; ['html'] yields
    the inner markup when it is not empty and null otherwise; any other
    name yields that attribute's value when the node carries it with a
    non-empty value, and null otherwise. *)
Theorem extractValueFromElement_value (element : Element) (attribute : string) :
  (attribute = "text" →
   extractValueFromElement element attribute = Some (trim (el_text element))) ∧
  (attribute = "html" →
   extractValueFromElement element attribute = nonempty_or_null (el_html element)) ∧
  (attribute ≠ "text" → attribute ≠ "html" →
   extractValueFromElement element attribute
   = nonempty_or_null (el_attribs element !! attribute)).
Proof.
  unfold extractValueFromElement. repeat split.
  - by intros ->.
  - intros ->. simpl. apply or_null_nonempty.
  - intros Ht Hh.
    apply String.eqb_neq in Ht, Hh. rewrite Ht, Hh. apply or_null_nonempty.
Qed.

Lemma extractValueFromElement_value_witness :
  extractValueFromElement blank "class" = nonempty_or_null (el_attribs blank !! "class").
Proof.
  apply (proj2 (proj2 (extractValueFromElement_value blank "class")));
    discriminate.
Defined.

(** ** Sequencing *)

Lemma bind_assoc {A B C} (m : M A) (f : A → M B) (g : B → M C) (w : World) :
  bind (bind m f) g w = bind m (fun a => bind (f a) g) w.
Proof. unfold bind. by destruct (m w). Qed.

Lemma bind_returned {A B} (m : M A) (k : A → M B) (w : World) a w' :
  m w = Returned a w' → bind m k w = k a w'.
Proof. unfold bind. by intros ->. Qed.

Lemma bind_thrown {A B} (m : M A) (k : A → M B) (w : World) e w' :
  m w = Thrown e w' → bind m k w = Thrown e w'.
Proof. unfold bind. by intros ->. Qed.

Lemma bind_diverged {A B} (m : M A) (k : A → M B) (w : World) :
  m w = Diverged → bind m k w = Diverged.
Proof. unfold bind. by intros ->. Qed.

(** ** Reporting an error *)

Section Reporting.

Variable env : Env.

(** The world after [handleError error]. *)
Definition handled (error : JsValue) (w : World) : World :=
  dispatch_world env (Slice.SetError (errorMessage error))
    (with_event (EvError ("Scraping error: " +:+ errorMessage error)) w).

Lemma handleError_run (error : JsValue) (w : World) :
  handleError env error w = Returned tt (handled error w).
Proof. reflexivity. Qed.

Lemma handled_status (e : JsValue) (w : World) :
  status (store (handled e w)) = Error ∧
  error (store (handled e w)) = Some (errorMessage e).
Proof. by split. Qed.

End Reporting.

(** ** Starting a run *)

(** C2, as stated, fails: calling [startScraping] with the initial
    configuration (no address, no selector) on an idle store leaves the
    store in the error phase. *)
Lemma startScraping_rejected_changes_phase :
  let w := {| store := Slice.initialState; svc := scraperService; trace := [];
              sched := []; ticks := 0; gets := 0; uuids := 0 |} in
  ∃ w', startScraping (Sample.env Sample.online) 1 (config Slice.initialState) w
        = Returned tt w' ∧
        status (store w) = Idle ∧
        status (store w') = Error ∧
        store w' ≠ store w.
Proof.
  eexists. split; [reflexivity|]. repeat split. discriminate.
Qed.

(** C2, amended. For a plan whose address is empty or whose selector list
    is empty, [startScraping] returns at once after dispatching [setError]:
    the phase becomes the error phase and the message is recorded, while
    the records, the progress, the history, the stored configuration, the
    service's own fields, the trace (no request is made) and the schedule
    stay as they were. *)
Theorem startScraping_rejects (env : Env) (fuel : nat) (cfg : ScraperConfig)
  (w : World) :
  url cfg = EmptyString ∨ selectors cfg = [] →
  ∃ w', startScraping env fuel cfg w = Returned tt w' ∧
        status (store w') = Error ∧
        error (store w') = Some "URL and at least one selector are required" ∧
        data (store w') = data (store w) ∧
        progress (store w') = progress (store w) ∧
        history (store w') = history (store w) ∧
        config (store w') = config (store w) ∧
        svc w' = svc w ∧ trace w' = trace w ∧ gets w' = gets w ∧
        sched w' = sched w ∧ ticks w' = ticks w.
Proof.
  intros H. unfold startScraping.
  assert (Hc : falsy (url cfg) || (length (selectors cfg) =? 0) = true).
  { destruct H as [-> | ->]; [done|]. by rewrite orb_true_r. }
  rewrite Hc. eexists. split; [reflexivity|]. by repeat split.
Qed.

Lemma startScraping_rejects_witness :
  ∃ w', startScraping (Sample.env Sample.online) 5
          (Sample.plan "https://x.test" [] None) Sample.world0 = Returned tt w' ∧
        status (store w') = Error ∧
        error (store w') = Some "URL and at least one selector are required" ∧
        data (store w') = data (store Sample.world0) ∧
        progress (store w') = progress (store Sample.world0) ∧
        history (store w') = history (store Sample.world0) ∧
        config (store w') = config (store Sample.world0) ∧
        svc w' = svc Sample.world0 ∧ trace w' = trace Sample.world0 ∧
        gets w' = gets Sample.world0 ∧
        sched w' = sched Sample.world0 ∧ ticks w' = ticks Sample.world0.
Proof.
  apply (startScraping_rejects (Sample.env Sample.online) 5
           (Sample.plan "https://x.test" [] None) Sample.world0).
  right. reflexivity.
Defined.

(** ** The selector evaluator *)

Section Evaluator.

Variable env : Env.

(** A selector whose evaluation throws [e]: the structural query or the
    construction of the regular expression is refused. *)
Definition fails_with (doc : Doc env) (selector : SelectorConfig) (e : JsValue) : Prop :=
  (sel_type selector = "css" ∧
   cheerio_select env doc (sel_value selector) = Throws e)
  ∨ (sel_type selector = "regex" ∧
     RegExp_new env (sel_value selector) = Throws e).

Lemma applySelector_caught (doc : Doc env) (html : string)
  (selector : SelectorConfig) (e : JsValue) (w : World) :
  fails_with doc selector e →
  applySelector env doc html selector w = Returned [] (handled env e w).
Proof.
  intros [[Hty Hthrow] | [Hty Hthrow]];
    unfold applySelector, try_catch, bind; rewrite Hty; simpl;
    rewrite Hthrow; reflexivity.
Qed.

Lemma applySelectors_app (doc : Doc env) (html : string)
  (pre post : list SelectorConfig) (acc : Results) (w : World) :
  applySelectors env doc html (pre ++ post) acc w
  = (let* acc' := applySelectors env doc html pre acc in
     applySelectors env doc html post acc') w.
Proof.
  revert acc w. induction pre as [|selector pre IH]; intros acc w; [done|].
  simpl. rewrite bind_assoc.
  destruct (applySelector env doc html selector w) as [results w'|e w'|] eqn:E.
  - rewrite !(bind_returned _ _ _ _ _ E). apply IH.
  - by rewrite !(bind_thrown _ _ _ _ _ E).
  - by rewrite !(bind_diverged _ _ _ E).
Qed.

(** Selector kinds the evaluator has a case for. *)
Definition known_kind (ty : string) : Prop :=
  ty = "css" ∨ ty = "xpath" ∨ ty = "regex".

Lemma applySelector_unknown (doc : Doc env) (html : string)
  (selector : SelectorConfig) (w : World) :
  ¬ known_kind (sel_type selector) →
  applySelector env doc html selector w
  = Returned [] (with_event (EvWarn ("Unknown selector type: " +:+ sel_type selector)) w).
Proof.
  intros Hk. unfold applySelector, try_catch, bind.
  destruct (String.eqb_spec (sel_type selector) "css") as [E|_];
    [exfalso; apply Hk; left; done|].
  destruct (String.eqb_spec (sel_type selector) "xpath") as [E|_];
    [exfalso; apply Hk; right; left; done|].
  destruct (String.eqb_spec (sel_type selector) "regex") as [E|_];
    [exfalso; apply Hk; right; right; done|].
  reflexivity.
Qed.

(** A pattern selector, from the outcome of its match loop. *)
Lemma applySelector_regex (doc : Doc env) (html : string)
  (selector : SelectorConfig) (regex : Matcher) (w : World) :
  sel_type selector = "regex" →
  RegExp_new env (sel_value selector) = Ok regex →
  applySelector env doc html selector w
  = match collectMatches (array_limit env) regex html 0 [] with
    | Ok [] => Returned [] w
    | Ok (first :: more) =>
        Returned [mkResult (sel_name selector)
                    (if sel_multiple selector then VArr (first :: more)
                     else VStr first)] w
    | Throws e => Returned [] (handled env e w)
    end.
Proof.
  intros Hty Hre. unfold applySelector, try_catch, bind, collectMatches_m.
  rewrite Hty. simpl. rewrite Hre. simpl.
  destruct (collectMatches (array_limit env) regex html 0 []) as [[|first more]|e];
    simpl; try done.
  by destruct (sel_multiple selector).
Qed.

End Evaluator.

(** C3, as stated, fails: on a page read while the run is in the running
    phase, a selector whose expression is refused puts the store in the
    error phase, although the other selector still yields its values. *)
Lemma processSelectors_failure_sets_error :
  ∃ items w',
    processSelectors (Sample.env Sample.online) "<html>"
      [Sample.sel "bad" "css" "(" true; Sample.sel "title" "css" "h1" false]
      Sample.world0 = Returned items w' ∧
    status (store Sample.world0) = Running ∧
    status (store w') = Error ∧
    error (store w') = Some "Unmatched selector: (" ∧
    items = [ {[ "title" := VStr "Shop" ]} ].
Proof.
  eexists _, _. split; [vm_compute; reflexivity|]. by repeat split.
Qed.

(** C3, amended. A selector whose evaluation throws is caught on its own:
    it yields no result and nothing is thrown further, the loop over the
    selectors goes on with the selectors after it and with the results
    gathered before it, and the failure is reported through [handleError],
    which puts the store in the error phase with the failure's message. *)
Theorem applySelector_failure_contained (env : Env) (doc : Doc env)
  (html : string) (pre post : list SelectorConfig) (bad : SelectorConfig)
  (e : JsValue) (acc : Results) (w : World) :
  fails_with env doc bad e →
  applySelector env doc html bad w = Returned [] (handled env e w) ∧
  status (store (handled env e w)) = Error ∧
  error (store (handled env e w)) = Some (errorMessage e) ∧
  applySelectors env doc html (pre ++ bad :: post) acc w
  = (let* acc' := applySelectors env doc html pre acc in
     handleError env e ;;;
     applySelectors env doc html post acc') w.
Proof.
  intros Hbad. split; [by apply applySelector_caught|].
  split; [done|]. split; [done|].
  rewrite applySelectors_app.
  destruct (applySelectors env doc html pre acc w) as [acc' w'|e' w'|] eqn:E.
  - rewrite !(bind_returned _ _ _ _ _ E). simpl.
    rewrite (bind_returned _ _ _ _ _ (applySelector_caught env doc html bad e w' Hbad)).
    by rewrite (bind_returned _ _ _ _ _ (handleError_run env e w')).
  - by rewrite !(bind_thrown _ _ _ _ _ E).
  - by rewrite !(bind_diverged _ _ _ E).
Qed.

Lemma applySelector_failure_contained_witness :
  let env := Sample.env Sample.online in
  let bad := Sample.sel "bad" "regex" "(" true in
  let e := new_Error "Invalid regular expression: /(/: Unterminated group" in
  applySelector env Sample.page "<html>" bad Sample.world0
  = Returned [] (handled env e Sample.world0) ∧
  status (store (handled env e Sample.world0)) = Error ∧
  error (store (handled env e Sample.world0)) = Some (errorMessage e) ∧
  applySelectors env Sample.page "<html>"
    ([Sample.sel "title" "css" "h1" false] ++ bad :: [Sample.sel "item" "css" "li" true])
    no_results Sample.world0
  = (let* acc' := applySelectors env Sample.page "<html>"
                    [Sample.sel "title" "css" "h1" false] no_results in
     handleError env e ;;;
     applySelectors env Sample.page "<html>"
       [Sample.sel "item" "css" "li" true] acc') Sample.world0.
Proof.
  apply (applySelector_failure_contained (Sample.env Sample.online) Sample.page).
  right. split; reflexivity.
Defined.

(** C8, as stated, fails: a plan whose only selector has a kind the
    evaluator does not know is not rejected; the page is requested, the
    selector yields nothing, and the run ends completed without an error. *)
Lemma startScraping_accepts_unknown_kind :
  ∃ w',
    startScraping (Sample.env Sample.online) 5
      (Sample.plan "https://x.test" [Sample.sel "price" "jsonpath" "$.price" true] None)
      Sample.world0 = Returned tt w' ∧
    status (store w') = Completed ∧
    error (store w') = None ∧
    gets w' = 1 ∧
    last (trace w') = Some (EvWarn "Unknown selector type: jsonpath").
Proof.
  eexists. split; [vm_compute; reflexivity|]. by repeat split.
Qed.

(** C8, amended. A selector whose kind is none of [css], [xpath] and
    [regex] does not make [startScraping] reject the plan, which is checked
    for its address and the number of its selectors only; when the selector
    is evaluated, a warning naming the kind is logged, the selector yields
    no value, and the store is left as it is. *)
Theorem applySelector_unknown_kind (env : Env) (fuel : nat) (cfg : ScraperConfig)
  (doc : Doc env) (html : string) (selector : SelectorConfig) (w : World) :
  ¬ known_kind (sel_type selector) →
  applySelector env doc html selector w
  = Returned [] (with_event (EvWarn ("Unknown selector type: " +:+ sel_type selector)) w) ∧
  (selector ∈ selectors cfg → url cfg ≠ EmptyString →
   startScraping env fuel cfg w
   = (modify_svc begin_run ;;;
      guarded env
        (scrapeUrl env fuel (url cfg) (selectors cfg) (headers cfg) ;;;
         match paginated cfg with
         | Some pg => crawlLoop env fuel cfg pg (Some (url cfg)) 1
         | None => ret tt
         end ;;;
         finish env)) w).
Proof.
  intros Hk. split; [by apply applySelector_unknown|].
  intros Hin Hurl. unfold startScraping.
  destruct (url cfg) as [|c u]; [done|].
  destruct (selectors cfg) as [|s l]; [by apply elem_of_nil in Hin|].
  reflexivity.
Qed.

Lemma applySelector_unknown_kind_witness :
  let env := Sample.env Sample.online in
  let selector := Sample.sel "price" "jsonpath" "$.price" true in
  applySelector env Sample.page "<html>" selector Sample.world0
  = Returned [] (with_event (EvWarn ("Unknown selector type: " +:+ sel_type selector))
                   Sample.world0).
Proof.
  apply (applySelector_unknown_kind (Sample.env Sample.online) 5
           (Sample.plan "https://x.test" [] None) Sample.page "<html>"
           (Sample.sel "price" "jsonpath" "$.price" true) Sample.world0).
  unfold known_kind. simpl. intros [H | [H | H]]; discriminate H.
Defined.

(** ** Collecting the matches of a regular expression *)

(** An expression that cannot match the empty text at [lastIndex]: every
    match ends after the position the search started from. *)
Definition advancing (regex : Matcher) (html : string) : Prop :=
  ∀ lastIndex i txt,
    regex html lastIndex = Some (i, txt) → lastIndex < i + String.length txt.

(** One turn of the loop on a match that leaves [lastIndex] where it was:
    the same search is made again, with one element more in the array. *)
Lemma collectMatches_turn (regex : Matcher) (html : string) (lastIndex : nat)
  (txt : string) (room : nat) (matches : list string) :
  exec regex html lastIndex = Some (txt, lastIndex) →
  collectMatches (S room) regex html lastIndex matches
  = collectMatches room regex html lastIndex (matches ++ [txt]).
Proof. intros H. simpl. by rewrite H. Qed.

(** Such a loop ends when the array is full, and not before. *)
Lemma collectMatches_stuck (regex : Matcher) (html : string) (lastIndex : nat)
  (txt : string) :
  exec regex html lastIndex = Some (txt, lastIndex) →
  ∀ room matches, collectMatches room regex html lastIndex matches = Throws array_full.
Proof.
  intros H room. induction room as [|room IH]; intros matches.
  - simpl. by rewrite H.
  - rewrite (collectMatches_turn _ _ _ _ _ _ H). apply IH.
Qed.

Lemma exec_at_start (regex : Matcher) (html : string) :
  exec regex html 0
  = match regex html 0 with
    | Some (i, txt) => Some (txt, i + String.length txt)
    | None => None
    end.
Proof. reflexivity. Qed.

Lemma collectMatches_returns (regex : Matcher) (html : string) :
  advancing regex html →
  ∀ room lastIndex matches,
    String.length html + 1 - lastIndex ≤ room →
    ∃ ms, collectMatches room regex html lastIndex matches = Ok ms.
Proof.
  intros Hadv room. induction room as [|room IH]; intros lastIndex matches Hr.
  - simpl. unfold exec.
    destruct (Nat.ltb_spec (String.length html) lastIndex) as [_|Hge]; [by eexists|lia].
  - simpl. unfold exec.
    destruct (Nat.ltb_spec (String.length html) lastIndex) as [Hlt|Hge]; [by eexists|].
    destruct (regex html lastIndex) as [[i txt]|] eqn:E; [|by eexists].
    apply IH. apply Hadv in E. lia.
Qed.



(** A search for a literal text finds it at or after the position it starts
    from, so a non-empty literal is an advancing expression. *)
Lemma index_from (pat s : string) :
  ∀ n m, String.index n pat s = Some m → n ≤ m.
Proof.
  induction s as [|c s IH]; intros [|n] m H; simpl in H; try lia; try done.
  destruct (String.index n pat s) as [k|] eqn:E; [|done].
  injection H as <-. apply IH in E. lia.
Qed.

Lemma literal_advancing (pat html : string) :
  pat ≠ EmptyString → advancing (Sample.literal pat) html.
Proof.
  intros Hpat lastIndex i txt H. unfold Sample.literal in H.
  destruct (String.index lastIndex pat html) as [j|] eqn:E; [|done].
  injection H as <- <-. apply index_from in E.
  destruct pat; [done|]. simpl. lia.
Qed.





(** C10 does not hold of the code. When the expression matches the empty
    text at the start of the body, [exec] returns that match and leaves
    [lastIndex] at 0, so every turn of the loop makes the same search again
    and pushes one more empty string: the loop makes no progress, and what
    ends it is the array being full. The [RangeError] that [push] throws
    then is caught by the evaluator, which reports it and returns no match
    at all. *)
Theorem applySelector_empty_match_stalls (env : Env) (doc : Doc env)
  (html : string) (selector : SelectorConfig) (regex : Matcher) (w : World) :
  sel_type selector = "regex" →
  RegExp_new env (sel_value selector) = Ok regex →
  regex html 0 = Some (0, EmptyString) →
  exec regex html 0 = Some (EmptyString, 0) ∧
  (∀ room matches,
     collectMatches (S room) regex html 0 matches
     = collectMatches room regex html 0 (matches ++ [EmptyString])) ∧
  (∀ matches, collectMatches 0 regex html 0 matches = Throws array_full) ∧
  applySelector env doc html selector w = Returned [] (handled env array_full w) ∧
  status (store (handled env array_full w)) = Error ∧
  error (store (handled env array_full w)) = Some "Invalid array length".
Proof.
  intros Hty Hre Hm.
  assert (Hexec : exec regex html 0 = Some (EmptyString, 0))
    by (by rewrite exec_at_start, Hm).
  split; [done|]. split; [|split; [|split]].
  - intros room matches. by apply collectMatches_turn.
  - intros matches. by apply (collectMatches_stuck regex html 0 EmptyString).
  - rewrite (applySelector_regex env doc html selector regex w Hty Hre).
    by rewrite (collectMatches_stuck regex html 0 EmptyString).
  - done.
Qed.

Lemma applySelector_empty_match_stalls_witness :
  applySelector (Sample.env Sample.online) Sample.page "b"
    (Sample.sel "as" "regex" "a*" true) Sample.world0
  = Returned [] (handled (Sample.env Sample.online) array_full Sample.world0).
Proof.
  apply (applySelector_empty_match_stalls (Sample.env Sample.online) Sample.page "b"
           (Sample.sel "as" "regex" "a*" true) (Sample.star "a") Sample.world0);
    reflexivity.
Defined.

(** ** Stopping from outside *)

Section StopCall.

Variable env : Env.

(** The world [stopScraping] leaves: the two flags are set, and the reducer
    has run if the stack had room for one dispatch at least (the nested
    dispatches that follow the first find the store idle and the flags set,
    and read the same clock). *)
Definition stopped (room : nat) (w : World) : World :=
  let w1 := with_svc (set_isPaused false) (with_svc (set_shouldStop true) w) in
  match room with
  | 0 => w1
  | S _ => dispatch_world env Slice.StopScraping w1
  end.

Lemma stopScraping_nested_run (room : nat) :
  ∀ w, stopScraping_nested env room w = Thrown stack_overflow (stopped room w).
Proof.
  induction room as [|room IH]; intros w; [done|].
  simpl. rewrite IH. by destruct room.
Qed.

Lemma stopScraping_world_stopped (w : World) :
  stopScraping_world env w = stopped (stack_room env) w.
Proof.
  unfold stopScraping_world, world_after, stopScraping.
  by rewrite stopScraping_nested_run.
Qed.

End StopCall.

(** ** The fetch client *)

(** The requests and the waits of a trace, in order. *)
Definition is_request (ev : Event) : bool :=
  match ev with
  | EvGet _ _ _ | EvSleep _ => true
  | _ => false
  end.

Definition requests (t : list Event) : list Event := List.filter is_request t.

(** A request that does not bring the page back: the promise is rejected,
    or it resolves with a status other than 200. *)
Definition failing (o : GetOutcome) : Prop :=
  match o with
  | Resolved st _ => st ≠ 200%N
  | Rejected _ => True
  end.

(** What [fetchUrl] catches after such a request. *)
Definition caught (o : GetOutcome) : JsValue :=
  match o with
  | Resolved st _ => new_Error ("Received status code " +:+ toString st)
  | Rejected e => e
  end.

Section Fetching.

Variable env : Env.

(** The world when the run resumes after a suspension. *)
Definition resumed (w : World) : World :=
  fold_left (run_cmd env) (hd [] (sched w))
    {| store := store w; svc := svc w; trace := trace w; sched := tail (sched w);
       ticks := S (ticks w); gets := gets w; uuids := uuids w |}.

(** The world once a request has been issued and has settled. *)
Definition requested (u : string) (hs : gmap string string) (w : World) : World :=
  let cfg := serviceConfig (svc w) in
  resumed {| store := store w; svc := svc w;
             trace := trace w ++ [EvGet (requestUrl_of env cfg u) (timeout cfg)
                                        (request_headers cfg hs)];
             sched := sched w; ticks := ticks w; gets := S (gets w);
             uuids := uuids w |}.

(** The world after the three tests on the caught error. *)
Definition noted (e : JsValue) (w : World) : World :=
  if has_status e 502 then
    handled env (new_Error (proxy_message e "Bad Gateway")) w
  else if has_status e 504 then
    handled env (new_Error (proxy_message e "Gateway Timeout")) w
  else if includes "Network Error" (default EmptyString (message_of e)) then
    handled env (new_Error
      "Proxy server connection failed. Make sure the proxy server is running.") w
  else w.

(** The world after the backoff wait that follows the failed attempt
    number [k]. *)
Definition backed_off (u : string) (k budget : N) (w : World) : World :=
  resumed
    (with_event (EvSleep (2 ^ k * 1000)%N)
       (with_event
          (EvLog ("Retrying " +:+ u +:+ " in " +:+ toString (2 ^ k * 1000)%N +:+
                  "ms... (" +:+ toString (k + 1)%N +:+ "/" +:+
                  toString budget +:+ ")")) w)).

(** The two halves of [fetchUrl]: its [try] and its [catch]. *)
Definition attempt (u : string) (hs : gmap string string) : M (option string) :=
  let* s := get_svc in
  let cfg := serviceConfig s in
  let* response := axios_get_m env (requestUrl_of env cfg u) (timeout cfg)
                               (request_headers cfg hs) in
  if (response.1 =? 200)%N then ret (Some response.2)
  else throw (new_Error ("Received status code " +:+ toString response.1)).

Definition on_failure (fuel : nat) (u : string) (hs : gmap string string)
  (retryCount : N) (error : JsValue) : M (option string) :=
  let* s := get_svc in
  let maxRetries := retry_budget (serviceConfig s) in
  (if has_status error 502 then
     handleError env (new_Error (proxy_message error "Bad Gateway"))
   else if has_status error 504 then
     handleError env (new_Error (proxy_message error "Gateway Timeout"))
   else if includes "Network Error" (default EmptyString (message_of error)) then
     handleError env (new_Error
       "Proxy server connection failed. Make sure the proxy server is running.")
   else ret tt) ;;;
  if (retryCount <? maxRetries)%N then
    let delay := (2 ^ retryCount * 1000)%N in
    emit (EvLog ("Retrying " +:+ u +:+ " in " +:+ toString delay +:+
                 "ms... (" +:+ toString (retryCount + 1) +:+ "/" +:+
                 toString maxRetries +:+ ")")) ;;;
    sleep env delay ;;;
    fetchUrl env fuel u hs (retryCount + 1)
  else
    handleError env error ;;; ret None.

Lemma fetchUrl_unfold (fuel : nat) (u : string) (hs : gmap string string) (k : N) :
  fetchUrl env (S fuel) u hs k = try_catch (attempt u hs) (on_failure fuel u hs k).
Proof. reflexivity. Qed.

Lemma suspend_run (w : World) : suspend env w = Returned tt (resumed w).
Proof. reflexivity. Qed.

Lemma run_cmds_keep (cmds : list Cmd) (w : World) :
  trace (fold_left (run_cmd env) cmds w) = trace w ∧
  serviceConfig (svc (fold_left (run_cmd env) cmds w)) = serviceConfig (svc w) ∧
  gets (fold_left (run_cmd env) cmds w) = gets w.
Proof.
  revert w. induction cmds as [|c cmds IH]; intros w; [done|].
  simpl. destruct (IH (run_cmd env w c)) as (-> & -> & ->).
  destruct c; simpl; try done.
  rewrite stopScraping_world_stopped. unfold stopped.
  by destruct (stack_room env).
Qed.

Lemma resumed_keeps (w : World) :
  trace (resumed w) = trace w ∧
  serviceConfig (svc (resumed w)) = serviceConfig (svc w) ∧
  gets (resumed w) = gets w.
Proof.
  unfold resumed.
  match goal with |- context [fold_left _ ?cmds ?x] =>
    destruct (run_cmds_keep cmds x) as (-> & -> & ->) end.
  done.
Qed.

Lemma requests_app (t1 t2 : list Event) :
  requests (t1 ++ t2) = requests t1 ++ requests t2.
Proof. apply List.filter_app. Qed.

Lemma requested_keeps (u : string) (hs : gmap string string) (w : World) :
  let cfg := serviceConfig (svc w) in
  requests (trace (requested u hs w))
  = requests (trace w) ++ [EvGet (requestUrl_of env cfg u) (timeout cfg)
                                 (request_headers cfg hs)] ∧
  serviceConfig (svc (requested u hs w)) = cfg ∧
  gets (requested u hs w) = S (gets w).
Proof.
  unfold requested. simpl.
  match goal with |- context [resumed ?x] =>
    destruct (resumed_keeps x) as (-> & -> & ->) end.
  simpl. by rewrite requests_app.
Qed.

Lemma handled_keeps (e : JsValue) (w : World) :
  requests (trace (handled env e w)) = requests (trace w) ∧
  serviceConfig (svc (handled env e w)) = serviceConfig (svc w) ∧
  gets (handled env e w) = gets w.
Proof.
  unfold handled. simpl. rewrite requests_app. simpl.
  by rewrite app_nil_r.
Qed.

Lemma noted_keeps (e : JsValue) (w : World) :
  requests (trace (noted e w)) = requests (trace w) ∧
  serviceConfig (svc (noted e w)) = serviceConfig (svc w) ∧
  gets (noted e w) = gets w.
Proof.
  unfold noted.
  destruct (has_status e 502); [apply handled_keeps|].
  destruct (has_status e 504); [apply handled_keeps|].
  destruct (includes _ _); [apply handled_keeps|done].
Qed.

Lemma backed_off_keeps (u : string) (k budget : N) (w : World) :
  requests (trace (backed_off u k budget w))
  = requests (trace w) ++ [EvSleep (2 ^ k * 1000)%N] ∧
  serviceConfig (svc (backed_off u k budget w)) = serviceConfig (svc w) ∧
  gets (backed_off u k budget w) = gets w.
Proof.
  unfold backed_off.
  match goal with |- context [resumed ?x] =>
    destruct (resumed_keeps x) as (-> & -> & ->) end.
  simpl. rewrite !requests_app. simpl. by rewrite app_nil_r.
Qed.

Lemma attempt_fails (u : string) (hs : gmap string string) (w : World) :
  failing (axios_get env (gets w) (requestUrl_of env (serviceConfig (svc w)) u)) →
  attempt u hs w
  = Thrown (caught (axios_get env (gets w)
                      (requestUrl_of env (serviceConfig (svc w)) u)))
           (requested u hs w).
Proof.
  intros Hfail. unfold attempt, bind, get_svc, axios_get_m.
  rewrite suspend_run. unfold requested.
  destruct (axios_get env (gets w) _) as [st body|e]; simpl in *; [|done].
  by destruct (N.eqb_spec st 200).
Qed.

Lemma noted_run (e : JsValue) (w : World) :
  (if has_status e 502 then
     handleError env (new_Error (proxy_message e "Bad Gateway"))
   else if has_status e 504 then
     handleError env (new_Error (proxy_message e "Gateway Timeout"))
   else if includes "Network Error" (default EmptyString (message_of e)) then
     handleError env (new_Error
       "Proxy server connection failed. Make sure the proxy server is running.")
   else ret tt) w = Returned tt (noted e w).
Proof.
  unfold noted.
  destruct (has_status e 502); [done|].
  destruct (has_status e 504); [done|].
  by destruct (includes _ _).
Qed.

Lemma on_failure_retries (fuel : nat) (u : string) (hs : gmap string string)
  (k : N) (e : JsValue) (w : World) :
  (k < retry_budget (serviceConfig (svc w)))%N →
  on_failure fuel u hs k e w
  = fetchUrl env fuel u hs (k + 1)
      (backed_off u k (retry_budget (serviceConfig (svc w))) (noted e w)).
Proof.
  intros Hk. apply N.ltb_lt in Hk. unfold on_failure.
  rewrite (bind_returned get_svc _ w (svc w) w) by done.
  rewrite (bind_returned _ _ w tt (noted e w)) by apply noted_run.
  rewrite Hk. reflexivity.
Qed.

Lemma on_failure_gives_up (fuel : nat) (u : string) (hs : gmap string string)
  (k : N) (e : JsValue) (w : World) :
  ¬ (k < retry_budget (serviceConfig (svc w)))%N →
  on_failure fuel u hs k e w = Returned None (handled env e (noted e w)).
Proof.
  intros Hk. apply N.ltb_nlt in Hk. unfold on_failure.
  rewrite (bind_returned get_svc _ w (svc w) w) by done.
  rewrite (bind_returned _ _ w tt (noted e w)) by apply noted_run.
  rewrite Hk. reflexivity.
Qed.

(** Every request fails. *)
Definition net_down : Prop := ∀ n u, failing (axios_get env n u).

(** The request [fetchUrl] issues for [u] in the world [w]. *)
Definition request_event (u : string) (hs : gmap string string) (w : World) : Event :=
  EvGet (requestUrl_of env (serviceConfig (svc w)) u)
        (timeout (serviceConfig (svc w)))
        (request_headers (serviceConfig (svc w)) hs).

Lemma fetchUrl_failed_attempt (fuel : nat) (u : string) (hs : gmap string string)
  (k : N) (w : World) :
  net_down →
  (k < retry_budget (serviceConfig (svc w)))%N →
  ∃ w', fetchUrl env (S fuel) u hs k w = fetchUrl env fuel u hs (k + 1) w' ∧
        serviceConfig (svc w') = serviceConfig (svc w) ∧
        requests (trace w')
        = requests (trace w) ++ [request_event u hs w; EvSleep (2 ^ k * 1000)%N] ∧
        gets w' = S (gets w).
Proof.
  intros Hdown Hk.
  pose proof (Hdown (gets w) (requestUrl_of env (serviceConfig (svc w)) u)) as Hfail.
  set (e := caught (axios_get env (gets w)
                      (requestUrl_of env (serviceConfig (svc w)) u))).
  destruct (requested_keeps u hs w) as (Ht1 & Hc1 & Hg1).
  destruct (noted_keeps e (requested u hs w)) as (Ht2 & Hc2 & Hg2).
  eexists. split.
  - rewrite fetchUrl_unfold. unfold try_catch.
    rewrite (attempt_fails u hs w Hfail). fold e.
    apply on_failure_retries. by rewrite Hc1.
  - match goal with |- context [backed_off ?a ?b ?c ?x] =>
      destruct (backed_off_keeps a b c x) as (-> & -> & ->) end.
    rewrite Ht2, Ht1, Hc2, Hc1, Hg2, Hg1.
    repeat split. by rewrite <- app_assoc.
Qed.

Lemma fetchUrl_last_attempt (fuel : nat) (u : string) (hs : gmap string string)
  (k : N) (w : World) :
  net_down →
  ¬ (k < retry_budget (serviceConfig (svc w)))%N →
  ∃ w', fetchUrl env (S fuel) u hs k w = Returned None w' ∧
        serviceConfig (svc w') = serviceConfig (svc w) ∧
        requests (trace w') = requests (trace w) ++ [request_event u hs w] ∧
        gets w' = S (gets w).
Proof.
  intros Hdown Hk.
  pose proof (Hdown (gets w) (requestUrl_of env (serviceConfig (svc w)) u)) as Hfail.
  set (e := caught (axios_get env (gets w)
                      (requestUrl_of env (serviceConfig (svc w)) u))).
  destruct (requested_keeps u hs w) as (Ht1 & Hc1 & Hg1).
  destruct (noted_keeps e (requested u hs w)) as (Ht2 & Hc2 & Hg2).
  eexists. split.
  - rewrite fetchUrl_unfold. unfold try_catch.
    rewrite (attempt_fails u hs w Hfail). fold e.
    apply on_failure_gives_up. by rewrite Hc1.
  - match goal with |- context [handled env ?a ?x] =>
      destruct (handled_keeps a x) as (-> & -> & ->) end.
    by rewrite Ht2, Ht1, Hc2, Hc1, Hg2, Hg1.
Qed.

(** With a budget of three retries and the network down, [fetchUrl] makes
    four requests, waits 1000, 2000 and 4000 ms between them, and returns
    null. *)
Lemma fetchUrl_exhausts (fuel : nat) (u : string) (hs : gmap string string)
  (w : World) :
  net_down →
  retry_budget (serviceConfig (svc w)) = 3%N →
  4 ≤ fuel →
  ∃ w', fetchUrl env fuel u hs 0 w = Returned None w' ∧
        serviceConfig (svc w') = serviceConfig (svc w) ∧
        requests (trace w')
        = requests (trace w) ++
          [request_event u hs w; EvSleep 1000; request_event u hs w; EvSleep 2000;
           request_event u hs w; EvSleep 4000; request_event u hs w] ∧
        gets w' = 4 + gets w.
Proof.
  intros Hdown Hb Hfuel.
  destruct fuel as [|[|[|[|fuel]]]]; try lia.
  destruct (fetchUrl_failed_attempt (S (S (S fuel))) u hs 0 w Hdown)
    as (w1 & E1 & C1 & T1 & G1); [rewrite Hb; lia|].
  destruct (fetchUrl_failed_attempt (S (S fuel)) u hs 1 w1 Hdown)
    as (w2 & E2 & C2 & T2 & G2); [rewrite C1, Hb; lia|].
  destruct (fetchUrl_failed_attempt (S fuel) u hs 2 w2 Hdown)
    as (w3 & E3 & C3 & T3 & G3); [rewrite C2, C1, Hb; lia|].
  destruct (fetchUrl_last_attempt fuel u hs 3 w3 Hdown)
    as (w4 & E4 & C4 & T4 & G4); [rewrite C3, C2, C1, Hb; lia|].
  exists w4. split; [|split; [|split]].
  - rewrite E1. change (0 + 1)%N with 1%N. rewrite E2.
    change (1 + 1)%N with 2%N. rewrite E3. change (2 + 1)%N with 3%N. exact E4.
  - by rewrite C4, C3, C2, C1.
  - rewrite T4, T3, T2, T1. unfold request_event.
    rewrite C3, C2, C1. rewrite <- !app_assoc. reflexivity.
  - lia.
Qed.

(** Whatever the network does, [fetchUrl] throws nothing: it returns the
    body or null (or goes on retrying). *)
Lemma fetchUrl_never_throws (fuel : nat) (u : string) (hs : gmap string string) :
  ∀ (k : N) (w : World) e w', fetchUrl env fuel u hs k w ≠ Thrown e w'.
Proof.
  induction fuel as [|fuel IH]; intros k w e w'; [done|].
  rewrite fetchUrl_unfold. unfold try_catch.
  destruct (attempt u hs w) as [a w1|e1 w1|]; [done| |done].
  unfold on_failure.
  rewrite (bind_returned get_svc _ w1 (svc w1) w1) by done.
  rewrite (bind_returned _ _ w1 tt (noted e1 w1)) by apply noted_run.
  destruct (k <? retry_budget (serviceConfig (svc w1)))%N.
  - apply IH.
  - done.
Qed.

Lemma scrapeUrl_fetch_failed (fuel : nat) (u : string) (sels : list SelectorConfig)
  (hs : gmap string string) (w w' : World) :
  fetchUrl env fuel u hs 0 w = Returned None w' →
  scrapeUrl env fuel u sels hs w
  = Thrown (new_Error ("Failed to fetch content from " +:+ u))
           (handled env (new_Error ("Failed to fetch content from " +:+ u)) w').
Proof.
  intros H. unfold scrapeUrl, try_catch.
  by rewrite (bind_returned _ _ _ _ _ H).
Qed.

End Fetching.

(** C4. When every request fails and the retry budget is 3, [fetchUrl]
    makes exactly four requests, waits 1000, 2000 and 4000 ms before the
    second, third and fourth, and returns null without throwing; the run
    that [startScraping] began then ends in the error phase with a
    message. *)
Theorem startScraping_fetch_exhausted (env : Env) (fuel : nat)
  (cfg : ScraperConfig) (w : World) :
  net_down env →
  retry_budget (serviceConfig (svc w)) = 3%N →
  url cfg ≠ EmptyString → selectors cfg ≠ [] →
  4 ≤ fuel →
  let get := request_event env (url cfg) (headers cfg) w in
  let attempts := [get; EvSleep 1000; get; EvSleep 2000; get; EvSleep 4000; get] in
  (∃ w1, fetchUrl env fuel (url cfg) (headers cfg) 0 w = Returned None w1 ∧
         requests (trace w1) = requests (trace w) ++ attempts ∧
         gets w1 = 4 + gets w) ∧
  (∃ w2, startScraping env fuel cfg w = Returned tt w2 ∧
         status (store w2) = Error ∧
         error (store w2) = Some ("Failed to fetch content from " +:+ url cfg) ∧
         requests (trace w2) = requests (trace w) ++ attempts ∧
         gets w2 = 4 + gets w ∧
         isRunning (svc w2) = false).
Proof.
  intros Hdown Hb Hurl Hsels Hfuel get attempts. split.
  - destruct (fetchUrl_exhausts env fuel (url cfg) (headers cfg) w Hdown Hb Hfuel)
      as (w1 & E & _ & T & G).
    by exists w1.
  - destruct (fetchUrl_exhausts env fuel (url cfg) (headers cfg)
                (with_svc begin_run w) Hdown Hb Hfuel) as (w1 & E & _ & T & G).
    assert (Hok : falsy (url cfg) || (length (selectors cfg) =? 0) = false).
    { destruct (url cfg); [done|]. by destruct (selectors cfg). }
    unfold startScraping. rewrite Hok.
    eexists. split.
    + rewrite (bind_returned _ _ w tt (with_svc begin_run w)) by done.
      unfold guarded, try_finally, try_catch.
      rewrite (bind_thrown _ _ _ _ _
                 (scrapeUrl_fetch_failed env fuel (url cfg) (selectors cfg)
                    (headers cfg) _ _ E)).
      rewrite handleError_run. reflexivity.
    + simpl. repeat split.
      * rewrite !requests_app. simpl. rewrite !app_nil_r. rewrite T. reflexivity.
      * exact G.
Qed.

Lemma startScraping_fetch_exhausted_witness :
  let env := Sample.env Sample.offline in
  let cfg := Sample.plan "https://x.test" [Sample.sel "title" "css" "h1" false] None in
  let get := request_event env (url cfg) (headers cfg) Sample.world0 in
  let attempts := [get; EvSleep 1000; get; EvSleep 2000; get; EvSleep 4000; get] in
  (∃ w1, fetchUrl env 4 (url cfg) (headers cfg) 0 Sample.world0 = Returned None w1 ∧
         requests (trace w1) = requests (trace Sample.world0) ++ attempts ∧
         gets w1 = 4 + gets Sample.world0) ∧
  (∃ w2, startScraping env 4 cfg Sample.world0 = Returned tt w2 ∧
         status (store w2) = Error ∧
         error (store w2) = Some ("Failed to fetch content from " +:+ url cfg) ∧
         requests (trace w2) = requests (trace Sample.world0) ++ attempts ∧
         gets w2 = 4 + gets Sample.world0 ∧
         isRunning (svc w2) = false).
Proof.
  apply (startScraping_fetch_exhausted (Sample.env Sample.offline) 4
           (Sample.plan "https://x.test" [Sample.sel "title" "css" "h1" false] None)
           Sample.world0).
  - intros n u. exact I.
  - reflexivity.
  - discriminate.
  - discriminate.
  - lia.
Defined.

(** ** Pausing and stopping *)

Section Stopping.

Variable env : Env.

Lemma checkPause_waits (fuel : nat) (w : World) :
  isPaused (svc w) = true → shouldStop (svc w) = false →
  checkPause env (S fuel) w
  = checkPause env fuel (resumed env (with_event (EvSleep 500) w)).
Proof.
  intros Hp Hs. simpl. unfold bind, get_svc. by rewrite Hp, Hs.
Qed.




End Stopping.




(** A whole run of that shape: the user pauses while the first page is
    being requested, the loop then waits, and the user stops the run
    during the second poll. One request was made, the three records of the
    first page are there, nothing was added to the history. *)
Example run_paused_then_stopped :
  let cfg := Sample.plan "https://x.test" [Sample.sel "item" "css" "li" true]
               (Some (mkPagination true "url"
                        (Some "https://x.test/p?page={page}") (Some 5%N))) in
  let w := {| store := store Sample.world0; svc := scraperService; trace := [];
              sched := [ [Dispatch Slice.PauseScraping; CallPause]; [];
                         [Dispatch Slice.StopScraping; CallStop] ];
              ticks := 0; gets := 0; uuids := 0 |} in
  ∃ w', startScraping (Sample.env Sample.online) 10 cfg w = Returned tt w' ∧
        status (store w') = Idle ∧
        gets w' = 1 ∧
        length (data (store w')) = 3 ∧
        history (store w') = [] ∧
        requests (trace w')
        = [request_event (Sample.env Sample.online) "https://x.test" ∅ w;
           EvSleep 500; EvSleep 500].
Proof.
  eexists. split; [vm_compute; reflexivity|]. by repeat split.
Qed.

(** With a budget of two pages and a next page that always resolves, two
    pages are requested and the run ends completed, with one history
    entry. *)
Example run_two_pages :
  let cfg := Sample.plan "https://x.test" [Sample.sel "item" "css" "li" true]
               (Some (mkPagination true "url"
                        (Some "https://x.test/p?page={page}") (Some 2%N))) in
  ∃ w', startScraping (Sample.env Sample.online) 10 cfg Sample.world0
        = Returned tt w' ∧
        status (store w') = Completed ∧
        gets w' = 2 ∧
        length (data (store w')) = 6 ∧
        length (history (store w')) = 1.
Proof.
  eexists. split; [vm_compute; reflexivity|]. by repeat split.
Qed.

(** A fetch that is exhausted on a later page ends the run the same way:
    the first request brings the page back, the four that follow fail. *)
Example run_second_page_unreachable :
  let net := fun (n : nat) (u : string) =>
               match n with
               | 0 => Resolved 200 "<html>"
               | _ => Rejected (new_Error "timeout of 30000ms exceeded")
               end in
  let cfg := Sample.plan "https://x.test" [Sample.sel "item" "css" "li" true]
               (Some (mkPagination true "url"
                        (Some "https://x.test/p?page={page}") (Some 3%N))) in
  ∃ w', startScraping (Sample.env net) 10 cfg Sample.world0 = Returned tt w' ∧
        status (store w') = Error ∧
        error (store w')
        = Some "Failed to fetch content from https://x.test/p?page=2" ∧
        gets w' = 5 ∧
        length (data (store w')) = 3 ∧
        history (store w') = [].
Proof.
  eexists. split; [vm_compute; reflexivity|]. by repeat split.
Qed.

(** ** The record structurer *)


Definition sample_results : gmap string (list SelectorResult) :=
  <["title" := [mkResult "title" (VStr "Shop")]]>
  (<["price" := [mkResult "price" (VStr "1"); mkResult "price" (VStr "2");
                 mkResult "price" (VStr "3")]]> ∅).


(** * Further properties of the code *)

(** ** The fetch client, for any budget and any network *)

(** The requests and waits of [j] failed attempts followed by one more
    attempt, the first of them being retry number [k]. *)
Fixpoint retry_events (get : Event) (k : N) (j : nat) : list Event :=
  match j with
  | 0 => [get]
  | S j' => get :: EvSleep (2 ^ k * 1000)%N :: retry_events get (k + 1) j'
  end.

Section Retrying.

Variable env : Env.

Lemma attempt_succeeds (u : string) (hs : gmap string string) (w : World)
  (body : string) :
  axios_get env (gets w) (requestUrl_of env (serviceConfig (svc w)) u)
  = Resolved 200 body →
  attempt env u hs w = Returned (Some body) (requested env u hs w).
Proof.
  intros H. unfold attempt, bind, get_svc, axios_get_m.
  rewrite suspend_run. unfold requested. by rewrite H.
Qed.

Lemma fetchUrl_fails_once (fuel : nat) (u : string) (hs : gmap string string)
  (k : N) (w : World) :
  failing (axios_get env (gets w) (requestUrl_of env (serviceConfig (svc w)) u)) →
  (k < retry_budget (serviceConfig (svc w)))%N →
  ∃ w', fetchUrl env (S fuel) u hs k w = fetchUrl env fuel u hs (k + 1) w' ∧
        serviceConfig (svc w') = serviceConfig (svc w) ∧
        requests (trace w')
        = requests (trace w) ++ [request_event env u hs w; EvSleep (2 ^ k * 1000)%N] ∧
        gets w' = S (gets w).
Proof.
  intros Hfail Hk.
  set (e := caught (axios_get env (gets w)
                      (requestUrl_of env (serviceConfig (svc w)) u))).
  destruct (requested_keeps env u hs w) as (Ht1 & Hc1 & Hg1).
  destruct (noted_keeps env e (requested env u hs w)) as (Ht2 & Hc2 & Hg2).
  eexists. split.
  - rewrite fetchUrl_unfold. unfold try_catch.
    rewrite (attempt_fails env u hs w Hfail). fold e.
    apply on_failure_retries. by rewrite Hc1.
  - match goal with |- context [backed_off env ?a ?b ?c ?x] =>
      destruct (backed_off_keeps env a b c x) as (-> & -> & ->) end.
    rewrite Ht2, Ht1, Hc2, Hc1, Hg2, Hg1.
    repeat split. by rewrite <- app_assoc.
Qed.

Lemma fetchUrl_recovers_from (j : nat) :
  ∀ (fuel : nat) (u : string) (hs : gmap string string) (k : N) (w : World)
    (body : string),
    (∀ i, i < j →
          failing (axios_get env (gets w + i)
                     (requestUrl_of env (serviceConfig (svc w)) u))) →
    axios_get env (gets w + j) (requestUrl_of env (serviceConfig (svc w)) u)
    = Resolved 200 body →
    (k + N.of_nat j ≤ retry_budget (serviceConfig (svc w)))%N →
    j < fuel →
    ∃ w', fetchUrl env fuel u hs k w = Returned (Some body) w' ∧
          serviceConfig (svc w') = serviceConfig (svc w) ∧
          requests (trace w')
          = requests (trace w) ++ retry_events (request_event env u hs w) k j ∧
          gets w' = S j + gets w.
Proof.
  induction j as [|j IH]; intros fuel u hs k w body Hfail Hok Hk Hfuel.
  - destruct fuel as [|fuel]; [lia|].
    rewrite Nat.add_0_r in Hok.
    exists (requested env u hs w). split.
    + rewrite fetchUrl_unfold. unfold try_catch.
      by rewrite (attempt_succeeds u hs w body Hok).
    + destruct (requested_keeps env u hs w) as (-> & -> & ->). by repeat split.
  - destruct fuel as [|fuel]; [lia|].
    destruct (fetchUrl_fails_once fuel u hs k w) as (w1 & E1 & C1 & T1 & G1).
    { specialize (Hfail 0). rewrite Nat.add_0_r in Hfail. apply Hfail. lia. }
    { lia. }
    destruct (IH fuel u hs (k + 1)%N w1 body) as (w2 & E2 & C2 & T2 & G2).
    + intros i Hi. rewrite C1, G1.
      replace (S (gets w) + i) with (gets w + S i) by lia. apply Hfail. lia.
    + rewrite C1, G1. replace (S (gets w) + j) with (gets w + S j) by lia. exact Hok.
    + rewrite C1. lia.
    + lia.
    + exists w2. split; [by rewrite E1|]. split; [by rewrite C2|]. split.
      * rewrite T2, T1. unfold request_event. rewrite C1.
        rewrite <- app_assoc. reflexivity.
      * lia.
Qed.

Lemma fetchUrl_gives_up_after (n : nat) :
  ∀ (fuel : nat) (u : string) (hs : gmap string string) (k : N) (w : World),
    net_down env →
    (k + N.of_nat n = retry_budget (serviceConfig (svc w)))%N →
    n < fuel →
    ∃ w', fetchUrl env fuel u hs k w = Returned None w' ∧
          serviceConfig (svc w') = serviceConfig (svc w) ∧
          requests (trace w')
          = requests (trace w) ++ retry_events (request_event env u hs w) k n ∧
          gets w' = S n + gets w.
Proof.
  induction n as [|n IH]; intros fuel u hs k w Hdown Hk Hfuel.
  - destruct fuel as [|fuel]; [lia|].
    destruct (fetchUrl_last_attempt env fuel u hs k w Hdown) as (w1 & E & C & T & G);
      [lia|].
    exists w1. by repeat split.
  - destruct fuel as [|fuel]; [lia|].
    destruct (fetchUrl_failed_attempt env fuel u hs k w Hdown) as (w1 & E1 & C1 & T1 & G1);
      [lia|].
    destruct (IH fuel u hs (k + 1)%N w1 Hdown) as (w2 & E2 & C2 & T2 & G2);
      [rewrite C1; lia | lia |].
    exists w2. split; [by rewrite E1|]. split; [by rewrite C2|]. split.
    + rewrite T2, T1. unfold request_event. rewrite C1.
      rewrite <- app_assoc. reflexivity.
    + lia.
Qed.

End Retrying.

(** X1. [fetchUrl] throws nothing, whatever the network, the budget, the
    schedule and the retry count it is entered with: it returns (a body or
    null) or it is still retrying. *)
Theorem fetchUrl_settles (env : Env) (fuel : nat) (u : string)
  (hs : gmap string string) (k : N) (w : World) :
  match fetchUrl env fuel u hs k w with
  | Returned _ _ | Diverged => True
  | Thrown _ _ => False
  end.
Proof.
  destruct (fetchUrl env fuel u hs k w) as [r w'|e w'|] eqn:E; [done| |done].
  by apply fetchUrl_never_throws in E.
Qed.

(** X2. When the first [j] requests fail and the next one brings the page
    back with status 200, and the budget allows [j] retries, [fetchUrl]
    returns that body after [j + 1] requests, having waited
    [2^i * 1000] ms after the failure number [i]. *)
Theorem fetchUrl_recovers (env : Env) (j fuel : nat) (u : string)
  (hs : gmap string string) (w : World) (body : string) :
  (∀ i, i < j →
        failing (axios_get env (gets w + i)
                   (requestUrl_of env (serviceConfig (svc w)) u))) →
  axios_get env (gets w + j) (requestUrl_of env (serviceConfig (svc w)) u)
  = Resolved 200 body →
  (N.of_nat j ≤ retry_budget (serviceConfig (svc w)))%N →
  j < fuel →
  ∃ w', fetchUrl env fuel u hs 0 w = Returned (Some body) w' ∧
        requests (trace w')
        = requests (trace w) ++ retry_events (request_event env u hs w) 0 j ∧
        gets w' = S j + gets w.
Proof.
  intros Hfail Hok Hb Hfuel.
  destruct (fetchUrl_recovers_from env j fuel u hs 0 w body Hfail Hok)
    as (w' & E & _ & T & G); [lia | lia |].
  by exists w'.
Qed.

Lemma fetchUrl_recovers_witness :
  let net := fun (n : nat) (u : string) =>
               match n with
               | 2 => Resolved 200 "<html>"
               | _ => Resolved 503 "busy"
               end in
  let env := Sample.env net in
  ∃ w', fetchUrl env 3 "https://x.test" ∅ 0 Sample.world0
        = Returned (Some "<html>") w' ∧
        requests (trace w')
        = requests (trace Sample.world0) ++
          retry_events (request_event env "https://x.test" ∅ Sample.world0) 0 2 ∧
        gets w' = 3 + gets Sample.world0.
Proof.
  apply (fetchUrl_recovers
           (Sample.env (fun (n : nat) (u : string) =>
                          match n with
                          | 2 => Resolved 200 "<html>"
                          | _ => Resolved 503 "busy"
                          end))
           2 3 "https://x.test" ∅ Sample.world0 "<html>").
  - intros [|[|i]] Hi; simpl; [discriminate | discriminate | lia].
  - reflexivity.
  - vm_compute. discriminate.
  - lia.
Defined.

(** X3. When every request fails, [fetchUrl] makes one request more than
    the retry budget [maxRetries || 3], waits [2^i * 1000] ms after the
    failure number [i], and returns null; as a budget of 0 reads as 3,
    there are always at least two requests. *)
Theorem fetchUrl_attempts (env : Env) (fuel : nat) (u : string)
  (hs : gmap string string) (w : World) :
  net_down env →
  N.to_nat (retry_budget (serviceConfig (svc w))) < fuel →
  ∃ w', fetchUrl env fuel u hs 0 w = Returned None w' ∧
        requests (trace w')
        = requests (trace w) ++
          retry_events (request_event env u hs w) 0
            (N.to_nat (retry_budget (serviceConfig (svc w)))) ∧
        gets w' = S (N.to_nat (retry_budget (serviceConfig (svc w)))) + gets w ∧
        2 + gets w ≤ gets w'.
Proof.
  intros Hdown Hfuel.
  destruct (fetchUrl_gives_up_after env
              (N.to_nat (retry_budget (serviceConfig (svc w)))) fuel u hs 0 w Hdown)
    as (w' & E & _ & T & G); [lia | lia |].
  exists w'. repeat split; try done.
  assert (1 ≤ N.to_nat (retry_budget (serviceConfig (svc w)))); [|lia].
  unfold retry_budget. destruct (maxRetries _) as [n|]; [|simpl; lia].
  destruct (N.eqb_spec n 0); simpl; lia.
Qed.

Lemma fetchUrl_attempts_witness :
  let env := Sample.env Sample.offline in
  let w := with_svc (fun s => {| isRunning := isRunning s; isPaused := isPaused s;
                                 shouldStop := shouldStop s;
                                 currentPage := currentPage s;
                                 totalItems := totalItems s;
                                 processedItems := processedItems s;
                                 serviceConfig :=
                                   mkServiceConfig None None None (Some 1%N) None None |})
             Sample.world0 in
  ∃ w', fetchUrl env 2 "https://x.test" ∅ 0 w = Returned None w' ∧
        requests (trace w')
        = requests (trace w) ++
          retry_events (request_event env "https://x.test" ∅ w) 0
            (N.to_nat (retry_budget (serviceConfig (svc w)))) ∧
        gets w' = S (N.to_nat (retry_budget (serviceConfig (svc w)))) + gets w ∧
        2 + gets w ≤ gets w'.
Proof.
  apply (fetchUrl_attempts (Sample.env Sample.offline) 2 "https://x.test" ∅).
  - intros n u. exact I.
  - vm_compute. lia.
Defined.

(** ** The evaluator, for every kind of selector *)

(** A result object as [processSelectors] builds it: no own property holds
    an empty list, every result is stored under the name it carries, and
    no own property is named [__proto__]; the array that has become the
    prototype, if any, is not empty and holds results named [__proto__]. *)
Definition well_keyed (o : Results) : Prop :=
  map_Forall (fun k rs => k ≠ "__proto__" ∧ rs ≠ [] ∧ Forall (fun r => name r = k) rs)
             (res_own o) ∧
  match res_proto o with
  | Some arr => arr ≠ [] ∧ Forall (fun r => name r = "__proto__") arr
  | None => True
  end.

Section Evaluating.

Variable env : Env.

Lemma push_value_names (nm : string) (v : option string) :
  Forall (fun r => name r = nm) (push_value nm v).
Proof. destruct v; simpl; by repeat constructor. Qed.

Lemma push_values_names (nm : string) (attribute : string) (els : list Element) :
  Forall (fun r => name r = nm)
    (concat ((fun el => push_value nm (extractValueFromElement el attribute)) <$> els)).
Proof.
  induction els as [|el els IH]; simpl; [constructor|].
  apply Forall_app. split; [apply push_value_names | exact IH].
Qed.

(** How an evaluation ends: it returns, with results that all carry the
    selector's name. *)
Lemma applySelector_outcome (doc : Doc env) (html : string)
  (selector : SelectorConfig) (w : World) :
  ∃ results w',
    applySelector env doc html selector w = Returned results w' ∧
    Forall (fun r => name r = sel_name selector) results.
Proof.
  unfold applySelector, try_catch, bind, collectMatches_m.
  destruct (String.eqb (sel_type selector) "css").
  { destruct (cheerio_select env doc (sel_value selector)) as [[|el els]|e]; simpl;
      try (by eexists _, _).
    destruct (sel_multiple selector); simpl; eexists _, _; (split; [done|]);
      [apply (push_values_names _ _ (el :: els)) | apply push_value_names]. }
  destruct (String.eqb (sel_type selector) "xpath"); [simpl; by eexists _, _|].
  destruct (String.eqb (sel_type selector) "regex"); [|simpl; by eexists _, _].
  destruct (RegExp_new env (sel_value selector)) as [regex|e]; simpl;
    [|by eexists _, _].
  destruct (collectMatches (array_limit env) regex html 0 []) as [[|m ms]|e]; simpl;
    try (by eexists _, _).
  destruct (sel_multiple selector); simpl; eexists _, _; (split; [done|]);
    by repeat constructor.
Qed.

Lemma well_keyed_set (nm : string) (results : list SelectorResult) (o : Results) :
  well_keyed o → results ≠ [] → Forall (fun r => name r = nm) results →
  well_keyed (set_result nm results o).
Proof.
  intros [Hown Hproto] Hne Hnames. unfold set_result.
  destruct (String.eqb_spec nm "__proto__") as [->|Hnm]; split; simpl; try done.
  by apply map_Forall_insert_2.
Qed.

Lemma applySelectors_outcome (doc : Doc env) (html : string)
  (sels : list SelectorConfig) :
  ∀ (acc : Results) (w : World),
    well_keyed acc →
    ∃ acc' w',
      applySelectors env doc html sels acc w = Returned acc' w' ∧
      well_keyed acc' ∧
      (∀ k, is_Some (res_own acc' !! k) →
            is_Some (res_own acc !! k) ∨ k ∈ sel_name <$> sels) ∧
      (res_proto acc' = res_proto acc ∨ "__proto__" ∈ sel_name <$> sels).
Proof.
  induction sels as [|selector rest IH]; intros acc w Hacc; simpl.
  - exists acc, w. split; [done|]. split; [done|].
    split; [intros k Hk; by left | by left].
  - destruct (applySelector_outcome doc html selector w) as (results & w1 & E & Hone).
    rewrite (bind_returned _ _ _ _ _ E).
    set (acc1 := if 0 <? length results
                 then set_result (sel_name selector) results acc else acc).
    assert (Hacc1 : well_keyed acc1).
    { subst acc1. destruct results as [|r results]; simpl; [done|].
      by apply well_keyed_set. }
    destruct (IH acc1 w1 Hacc1) as (acc' & w2 & E2 & Hk & Hdom & Hpr).
    exists acc', w2. split; [done|]. split; [done|]. split.
    + intros k Hsome. destruct (Hdom k Hsome) as [H1|H1].
      * subst acc1. destruct (0 <? length results); [|by left].
        unfold set_result in H1.
        destruct (String.eqb (sel_name selector) "__proto__"); simpl in H1;
          [by left|].
        destruct (decide (k = sel_name selector)) as [->|Hne].
        -- right. apply list_elem_of_here.
        -- left. by rewrite lookup_insert_ne in H1.
      * right. by apply list_elem_of_further.
    + destruct Hpr as [Hpr|Hpr]; [|right; by apply list_elem_of_further].
      subst acc1. destruct (0 <? length results); [|by left].
      unfold set_result in Hpr.
      destruct (String.eqb_spec (sel_name selector) "__proto__") as [Hnm|_];
        simpl in Hpr; [|by left].
      right. rewrite <- Hnm. apply list_elem_of_here.
Qed.

Lemma well_keyed_empty : well_keyed no_results.
Proof. split; [apply map_Forall_empty|done]. Qed.

End Evaluating.

(** X4. Evaluating a selector always returns: nothing is thrown, and no
    search goes on for ever; every result it returns carries the selector's
    name. *)
Theorem applySelector_contained (env : Env) (doc : Doc env)
  (html : string) (selector : SelectorConfig) (w : World) :
  match applySelector env doc html selector w with
  | Returned results _ => Forall (fun r => name r = sel_name selector) results
  | Thrown _ _ => False
  | Diverged => False
  end.
Proof.
  destruct (applySelector_outcome env doc html selector w) as (results & w' & -> & H).
  exact H.
Qed.

(** The successive matches of a search that starts at [lastIndex]: each
    [exec] starts where the one before it left [lastIndex], until [exec]
    gives null. *)
Inductive matches_from (regex : Matcher) (html : string) : nat → list string → Prop :=
| matches_end lastIndex :
    exec regex html lastIndex = None → matches_from regex html lastIndex []
| matches_next lastIndex txt lastIndex' ms :
    exec regex html lastIndex = Some (txt, lastIndex') →
    matches_from regex html lastIndex' ms →
    matches_from regex html lastIndex (txt :: ms).

(** The loop ends by itself exactly when these matches are no more than the
    array takes, and then it has collected them. *)
Lemma collectMatches_ok (regex : Matcher) (html : string) :
  ∀ room lastIndex matches ms,
    collectMatches room regex html lastIndex matches = Ok ms →
    ∃ more, ms = matches ++ more ∧ matches_from regex html lastIndex more ∧
            length more ≤ room.
Proof.
  intros room. induction room as [|room IH]; intros lastIndex matches ms H;
    simpl in H; destruct (exec regex html lastIndex) as [[txt li]|] eqn:E; try done.
  - injection H as <-. exists []. rewrite app_nil_r.
    split; [done|]. split; [by constructor|simpl; lia].
  - apply IH in H as (more & -> & Hm & Hlen). exists (txt :: more).
    rewrite <- app_assoc. split; [done|]. split; [by econstructor|simpl; lia].
  - injection H as <-. exists []. rewrite app_nil_r.
    split; [done|]. split; [by constructor|simpl; lia].
Qed.

Lemma collectMatches_full (regex : Matcher) (html : string) :
  ∀ room lastIndex matches e,
    collectMatches room regex html lastIndex matches = Throws e →
    e = array_full ∧
    ∀ ms, matches_from regex html lastIndex ms → room < length ms.
Proof.
  intros room. induction room as [|room IH]; intros lastIndex matches e H;
    simpl in H; destruct (exec regex html lastIndex) as [[txt li]|] eqn:E; try done.
  - injection H as <-. split; [done|]. intros ms Hms.
    inversion Hms; subst; [congruence|simpl; lia].
  - apply IH in H as [-> Hlen]. split; [done|]. intros ms Hms.
    inversion Hms as [|? ? ? ms' E' Hms']; subst; [congruence|].
    rewrite E in E'. injection E' as <- <-. apply Hlen in Hms'. simpl. lia.
Qed.

(** X5. A pattern selector always returns, with at most one result. When
    the successive matches of the expression in the body are no more than
    an array takes, there is no result if there is no match, and otherwise
    one result that holds the first match or, with [multiple] set, all the
    matches packed in order into one array value. Otherwise (the search
    stalls on an empty match, or the matches are too many) there is no
    result, also with [multiple] set, and the [RangeError] that [push]
    throws is reported. The first case is the one at hand when every match
    the search finds ends after the position it started from and the body
    is shorter than the largest array. *)
Theorem applySelector_regex_packs (env : Env) (doc : Doc env)
  (html : string) (selector : SelectorConfig) (w : World) (regex : Matcher) :
  sel_type selector = "regex" →
  RegExp_new env (sel_value selector) = Ok regex →
  (∃ results w',
     applySelector env doc html selector w = Returned results w' ∧
     length results ≤ 1 ∧
     ((∃ ms, matches_from regex html 0 ms ∧ length ms ≤ array_limit env ∧
             w' = w ∧
             results = match ms with
                       | [] => []
                       | first :: _ =>
                           [mkResult (sel_name selector)
                              (if sel_multiple selector then VArr ms else VStr first)]
                       end)
      ∨ ((∀ ms, matches_from regex html 0 ms → array_limit env < length ms) ∧
         results = [] ∧ w' = handled env array_full w))) ∧
  (advancing regex html → String.length html < array_limit env →
   ∃ ms, matches_from regex html 0 ms ∧ length ms ≤ array_limit env).
Proof.
  intros Hty Hre. split.
  - rewrite (applySelector_regex env doc html selector regex w Hty Hre).
    destruct (collectMatches (array_limit env) regex html 0 []) as [ms|e] eqn:E.
    + apply collectMatches_ok in E as (more & -> & Hm & Hlen). simpl.
      destruct more as [|first more]; eexists _, _; (split; [reflexivity|]);
        (split; [simpl; lia|]); left; eexists; by repeat split.
    + apply collectMatches_full in E as [-> Hlen].
      eexists _, _. split; [reflexivity|]. split; [simpl; lia|]. by right.
  - intros Hadv Hlen.
    destruct (collectMatches_returns regex html Hadv (array_limit env) 0 [])
      as [ms Hms]; [lia|].
    apply collectMatches_ok in Hms as (more & -> & Hm & Hle). by exists more.
Qed.

Lemma applySelector_regex_packs_witness :
  ∃ ms, matches_from (Sample.literal "li") "<li>1</li><li>2</li>" 0 ms ∧
        length ms ≤ array_limit (Sample.env Sample.online).
Proof.
  apply (proj2 (applySelector_regex_packs (Sample.env Sample.online) Sample.page
                  "<li>1</li><li>2</li>" (Sample.sel "tags" "regex" "li" true)
                  Sample.world0 (Sample.literal "li") eq_refl eq_refl)).
  - by apply literal_advancing.
  - simpl. lia.
Defined.

(** What a pattern selector with [multiple] set returns on a body in which
    the text occurs four times. *)
Example applySelector_regex_all :
  applySelector (Sample.env Sample.online) Sample.page "<li>1</li><li>2</li>"
    (Sample.sel "tags" "regex" "li" true) Sample.world0
  = Returned [mkResult "tags" (VArr ["li"; "li"; "li"; "li"])] Sample.world0.
Proof. reflexivity. Qed.



(** ** The records of a page *)

Lemma structureResults_elem (m : gmap string (list SelectorResult))
  (item : ScrapedItem) :
  item ∈ Structurer.structureResults m →
  ∃ i, i < Structurer.maxLength m ∧ item = Structurer.item_at m i.
Proof.
  unfold Structurer.structureResults. intros H.
  apply list_elem_of_fmap in H as (i & -> & Hi).
  apply elem_of_seq in Hi. exists i. split; [lia|done].
Qed.

Lemma maxLength_positive (m : gmap string (list SelectorResult)) :
  1 ≤ Structurer.maxLength m.
Proof. rewrite Structurer.maxLength_longest. lia. Qed.

(** X7. All the records built from one page have the same keys: the names
    under which the result map holds a list. *)
Theorem structureResults_same_keys (m : gmap string (list SelectorResult))
  (item : ScrapedItem) (k : string) :
  item ∈ Structurer.structureResults m →
  (is_Some (item !! k) ↔ is_Some (m !! k)).
Proof.
  intros H. apply structureResults_elem in H as (i & _ & ->).
  rewrite Structurer.item_at_lookup. by rewrite fmap_is_Some.
Qed.

Lemma structureResults_same_keys_witness :
  is_Some (Structurer.item_at sample_results 1 !! "title")
  ↔ is_Some (sample_results !! "title").
Proof.
  apply (structureResults_same_keys sample_results
           (Structurer.item_at sample_results 1) "title").
  vm_compute. apply list_elem_of_further, list_elem_of_here.
Defined.



(** The keys of the records of a result object: its own properties and the
    indices it inherits, the latter holding null. *)
Lemma structureResults_keys (o : Results) (item : ScrapedItem) (k : string) :
  item ∈ structureResults o → is_Some (item !! k) →
  is_Some (res_own o !! k)
  ∨ (item !! k = Some VNull ∧
     ∃ arr i, res_proto o = Some arr ∧ i < length arr ∧ k = toString (N.of_nat i)).
Proof.
  unfold structureResults. intros Hitem Hk.
  apply list_elem_of_fmap in Hitem as (item0 & -> & Hitem0).
  destruct (item0 !! k) as [v|] eqn:E.
  - left. apply (structureResults_same_keys _ _ k) in Hitem0. apply Hitem0. by eexists.
  - right. rewrite lookup_union_r in Hk |- * by done.
    destruct Hk as [v Hv]. apply elem_of_list_to_map_2 in Hv as Hin.
    apply list_elem_of_fmap in Hin as (key & [= -> ->] & Hkey).
    split; [done|]. unfold inherited_keys in Hkey.
    destruct (res_proto o) as [arr|]; [|by apply elem_of_nil in Hkey].
    apply list_elem_of_fmap in Hkey as (i & -> & Hi). apply elem_of_seq in Hi.
    exists arr, i. split; [done|]. split; [lia|done].
Qed.

(** X9. [processSelectors] always returns: it throws nothing and no
    selector keeps it from ending. When the page parses, it returns at
    least one record (one empty record when no selector matched); a key of
    a record is the name of a selector, or, when a selector is named
    [__proto__], an index into the results of that selector, under which
    the record holds null. When parsing throws, it returns no record and
    reports the error. *)
Theorem processSelectors_records (env : Env) (html : string)
  (sels : list SelectorConfig) (w : World) :
  match processSelectors env html sels w with
  | Returned items w' =>
      match cheerio_load env html with
      | Ok _ =>
          1 ≤ length items ∧
          ∀ item k, item ∈ items → is_Some (item !! k) →
            k ∈ sel_name <$> sels
            ∨ ("__proto__" ∈ sel_name <$> sels ∧ item !! k = Some VNull ∧
               ∃ i : nat, k = toString (N.of_nat i))
      | Throws e => items = [] ∧ w' = handled env e w
      end
  | Thrown _ _ => False
  | Diverged => False
  end.
Proof.
  unfold processSelectors, try_catch.
  destruct (cheerio_load env html) as [doc|e]; simpl; [|done].
  unfold bind at 1. simpl.
  destruct (applySelectors_outcome env doc html sels no_results w (well_keyed_empty))
    as (acc & w1 & E & _ & Hdom & Hpr).
  rewrite (bind_returned _ _ _ _ _ E). simpl. split.
  - unfold structureResults, Structurer.structureResults.
    rewrite !length_fmap, length_seq. apply maxLength_positive.
  - intros item k Hitem Hk.
    destruct (structureResults_keys acc item k Hitem Hk)
      as [Hown | (Hnull & arr & i & Harr & _ & ->)].
    + left. destruct (Hdom k Hown) as [H|H]; [|done].
      simpl in H. rewrite lookup_empty in H. by destruct H.
    + right. split; [|split; [done|by exists i]].
      destruct Hpr as [Hpr|Hpr]; [|done].
      rewrite Harr in Hpr. discriminate Hpr.
Qed.

(** A page read with a selector named [__proto__]: its three results become
    the prototype of the result object, and the one record of the page has
    the keys 0, 1 and 2, holding null, next to the title. *)
Example processSelectors_proto_name :
  processSelectors (Sample.env Sample.online) "<html>"
    [Sample.sel "__proto__" "css" "li" true; Sample.sel "title" "css" "h1" false]
    Sample.world0
  = Returned [ {[ "0" := VNull; "1" := VNull; "2" := VNull;
                  "title" := VStr "Shop" ]} ] Sample.world0.
Proof. vm_compute. reflexivity. Qed.

(** ** The pause wait *)

Section Waiting.

Variable env : Env.


Lemma checkPause_unanswered (fuel : nat) :
  ∀ w : World,
    isPaused (svc w) = true → shouldStop (svc w) = false →
    Forall (fun cmds => cmds = []) (sched w) →
    checkPause env fuel w = Diverged.
Proof.
  induction fuel as [|fuel IH]; intros w Hp Hs Hq; [done|].
  rewrite (checkPause_waits _ _ _ Hp Hs).
  assert (Hres : resumed env (with_event (EvSleep 500) w)
                 = {| store := store w; svc := svc w;
                      trace := trace w ++ [EvSleep 500]; sched := tail (sched w);
                      ticks := S (ticks w); gets := gets w; uuids := uuids w |}).
  { unfold resumed. simpl. destruct (sched w) as [|cmds s]; [done|].
    apply Forall_cons in Hq as [-> _]. done. }
  rewrite Hres. apply IH; simpl; try done.
  destruct (sched w) as [|cmds s]; [done|]. by apply Forall_cons in Hq as [_ Hq].
Qed.

End Waiting.



(** X11. A paused run waits for as long as nobody calls the service: with
    no call to come, the pause wait never returns. *)
Theorem checkPause_waits_forever (env : Env) (fuel : nat) (w : World) :
  isPaused (svc w) = true → shouldStop (svc w) = false →
  Forall (fun cmds => cmds = []) (sched w) →
  checkPause env fuel w = Diverged.
Proof. apply checkPause_unanswered. Qed.

Lemma checkPause_waits_forever_witness :
  checkPause (Sample.env Sample.online) 25
    (pauseScraping_world
       {| store := store Sample.world0; svc := scraperService; trace := [];
          sched := [[]; []]; ticks := 0; gets := 1; uuids := 0 |})
  = Diverged.
Proof.
  apply (checkPause_waits_forever (Sample.env Sample.online) 25);
    [reflexivity | reflexivity | by repeat constructor].
Defined.

(** ** How a run ends *)

(** X12. [startScraping] throws nothing: whatever happens inside is caught
    and reported. When it returns for a plan with an address and a
    selector, the service is no longer marked as running. *)
Theorem startScraping_settles (env : Env) (fuel : nat) (cfg : ScraperConfig)
  (w : World) :
  match startScraping env fuel cfg w with
  | Returned _ w' =>
      url cfg ≠ EmptyString → selectors cfg ≠ [] → isRunning (svc w') = false
  | Thrown _ _ => False
  | Diverged => True
  end.
Proof.
  unfold startScraping.
  destruct (falsy (url cfg) || (length (selectors cfg) =? 0)) eqn:Hc.
  - simpl. intros Hu Hs. exfalso.
    destruct (url cfg); [done|]. by destruct (selectors cfg).
  - rewrite (bind_returned _ _ w tt (with_svc begin_run w)) by done.
    unfold guarded, try_finally, try_catch.
    match goal with |- context [bind ?m ?k (with_svc begin_run w)] =>
      destruct (bind m k (with_svc begin_run w)) as [a w1|e w1|] end; simpl; done.
Qed.

(** ** What a run keeps

    A relation between the world before and the world after is kept by a
    computation when it holds however the computation ends. A relation that
    is reflexive, transitive and kept by the single steps of the service is
    kept by each of its methods. *)

Section Keeping.

Variable env : Env.
Variable R : World → World → Prop.
Hypothesis R_refl : ∀ w, R w w.
Hypothesis R_trans : ∀ a b c, R a b → R b c → R a c.

Definition keeps {A} (m : M A) : Prop :=
  ∀ w, match m w with
       | Returned _ w' | Thrown _ w' => R w w'
       | Diverged => True
       end.

Lemma keeps_ret {A} (a : A) : keeps (ret a).
Proof. intros w. apply R_refl. Qed.

Lemma keeps_throw {A} (e : JsValue) : keeps (@throw A e).
Proof. intros w. apply R_refl. Qed.

Lemma keeps_diverge {A} : keeps (@diverge A).
Proof. by intros w. Qed.

Lemma keeps_get_svc : keeps get_svc.
Proof. intros w. apply R_refl. Qed.

Lemma keeps_lift {A} (r : JsResult A) : keeps (lift r).
Proof. destruct r; [apply keeps_ret | apply keeps_throw]. Qed.

Lemma keeps_bind {A B} (m : M A) (k : A → M B) :
  keeps m → (∀ a, keeps (k a)) → keeps (bind m k).
Proof.
  intros Hm Hk w. unfold bind. specialize (Hm w).
  destruct (m w) as [a w1|e w1|]; [|done|done].
  specialize (Hk a w1). destruct (k a w1); eauto.
Qed.

Lemma keeps_try_catch {A} (m : M A) (h : JsValue → M A) :
  keeps m → (∀ e, keeps (h e)) → keeps (try_catch m h).
Proof.
  intros Hm Hh w. unfold try_catch. specialize (Hm w).
  destruct (m w) as [a w1|e w1|]; [done| |done].
  specialize (Hh e w1). destruct (h e w1); eauto.
Qed.

Lemma keeps_try_finally {A} (m : M A) (f : M unit) :
  keeps m → keeps f → keeps (try_finally m f).
Proof.
  intros Hm Hf w. unfold try_finally. specialize (Hm w).
  destruct (m w) as [a w1|e w1|]; [| |done].
  - pose proof (keeps_bind f (fun _ => ret a) Hf (fun _ => keeps_ret a) w1) as H.
    destruct ((f ;;; ret a) w1); eauto.
  - pose proof (keeps_bind f (fun _ => @throw A e) Hf (fun _ => keeps_throw e) w1) as H.
    destruct ((f ;;; throw e) w1); eauto.
Qed.

(** Logging, reporting an error, waiting. *)
Hypothesis R_event : ∀ ev w, R w (with_event ev w).
Hypothesis R_error : ∀ msg w, R w (dispatch_world env (Slice.SetError msg) w).
Hypothesis R_resumed : ∀ w, R w (resumed env w).

Lemma keeps_emit (ev : Event) : keeps (emit ev).
Proof. intros w. apply R_event. Qed.

Lemma keeps_handleError (e : JsValue) : keeps (handleError env e).
Proof.
  intros w. rewrite handleError_run. unfold handled.
  eapply R_trans; [apply R_event | apply R_error].
Qed.

Lemma keeps_suspend : keeps (suspend env).
Proof. intros w. rewrite suspend_run. apply R_resumed. Qed.

Lemma keeps_sleep (ms : N) : keeps (sleep env ms).
Proof. unfold sleep. apply keeps_bind; [apply keeps_emit | intros _; apply keeps_suspend]. Qed.

Lemma keeps_applyRateLimit (rl : RateLimitConfig) : keeps (applyRateLimit env rl).
Proof.
  unfold applyRateLimit. destruct (0 <? requestDelay rl)%N;
    [apply keeps_sleep | apply keeps_ret].
Qed.

Lemma keeps_checkPause (fuel : nat) : keeps (checkPause env fuel).
Proof.
  induction fuel as [|fuel IH]; simpl; [apply keeps_diverge|].
  apply keeps_bind; [apply keeps_get_svc|]. intros s.
  destruct (negb (isPaused s) || shouldStop s); [apply keeps_ret|].
  apply keeps_bind; [apply keeps_sleep | by intros _].
Qed.

(** Evaluating selectors. *)
Lemma keeps_applySelector (doc : Doc env) (html : string)
  (selector : SelectorConfig) : keeps (applySelector env doc html selector).
Proof.
  unfold applySelector. apply keeps_try_catch.
  - destruct (String.eqb (sel_type selector) "css").
    { apply keeps_bind; [apply keeps_lift|]. intros [|el els]; [apply keeps_ret|].
      destruct (sel_multiple selector); apply keeps_ret. }
    destruct (String.eqb (sel_type selector) "xpath").
    { apply keeps_bind; [apply keeps_emit | intros _; apply keeps_ret]. }
    destruct (String.eqb (sel_type selector) "regex").
    { apply keeps_bind; [apply keeps_lift|]. intros regex.
      apply keeps_bind.
      - apply keeps_lift.
      - intros [|m ms]; [apply keeps_ret|].
        destruct (sel_multiple selector); apply keeps_ret. }
    apply keeps_bind; [apply keeps_emit | intros _; apply keeps_ret].
  - intros e. apply keeps_bind; [apply keeps_handleError | intros _; apply keeps_ret].
Qed.

Lemma keeps_applySelectors (doc : Doc env) (html : string)
  (sels : list SelectorConfig) :
  ∀ acc, keeps (applySelectors env doc html sels acc).
Proof.
  induction sels as [|selector rest IH]; intros acc; simpl; [apply keeps_ret|].
  apply keeps_bind; [apply keeps_applySelector|]. intros results. apply IH.
Qed.

Lemma keeps_processSelectors (html : string)
  (sels : list SelectorConfig) : keeps (processSelectors env html sels).
Proof.
  unfold processSelectors. apply keeps_try_catch.
  - apply keeps_bind; [apply keeps_lift|]. intros doc.
    apply keeps_bind; [apply keeps_applySelectors | intros acc; apply keeps_ret].
  - intros e. apply keeps_bind; [apply keeps_handleError | intros _; apply keeps_ret].
Qed.

(** Requesting a page. *)
Hypothesis R_request :
  ∀ ev w, R w {| store := store w; svc := svc w; trace := trace w ++ [ev];
                 sched := sched w; ticks := ticks w; gets := S (gets w);
                 uuids := uuids w |}.

Lemma keeps_axios_get_m (requestUrl : string) (tmo : option N)
  (hs : gmap string string) : keeps (axios_get_m env requestUrl tmo hs).
Proof.
  intros w. unfold axios_get_m. rewrite suspend_run.
  assert (H : R w (resumed env
                     {| store := store w; svc := svc w;
                        trace := trace w ++ [EvGet requestUrl tmo hs];
                        sched := sched w; ticks := ticks w; gets := S (gets w);
                        uuids := uuids w |})).
  { eapply R_trans; [apply R_request | apply R_resumed]. }
  by destruct (axios_get env (gets w) requestUrl).
Qed.

Lemma keeps_fetchUrl (fuel : nat) (u : string) (hs : gmap string string) :
  ∀ k, keeps (fetchUrl env fuel u hs k).
Proof.
  induction fuel as [|fuel IH]; intros k; [apply keeps_diverge|].
  rewrite fetchUrl_unfold. apply keeps_try_catch.
  - unfold attempt. apply keeps_bind; [apply keeps_get_svc|]. intros s.
    apply keeps_bind; [apply keeps_axios_get_m|]. intros response.
    destruct (response.1 =? 200)%N; [apply keeps_ret | apply keeps_throw].
  - intros e. unfold on_failure.
    apply keeps_bind; [apply keeps_get_svc|]. intros s.
    apply keeps_bind.
    + destruct (has_status e 502); [apply keeps_handleError|].
      destruct (has_status e 504); [apply keeps_handleError|].
      destruct (includes _ _); [apply keeps_handleError | apply keeps_ret].
    + intros _. destruct (k <? retry_budget (serviceConfig s))%N.
      * apply keeps_bind; [apply keeps_emit|]. intros _.
        apply keeps_bind; [apply keeps_sleep|]. intros _. apply IH.
      * apply keeps_bind; [apply keeps_handleError | intros _; apply keeps_ret].
Qed.

(** Scraping a page and looping over the pages. *)
Hypothesis R_add_items : ∀ n w, R w (with_svc (add_items n) w).
Hypothesis R_progress :
  ∀ w, R w (dispatch_world env
              (Slice.UpdateProgress (processedItems (svc w)) (totalItems (svc w))) w).
Hypothesis R_append :
  ∀ items w, R w (dispatch_world env (Slice.AppendScrapedData items) w).

Lemma keeps_scrapeUrl (fuel : nat) (u : string) (sels : list SelectorConfig)
  (hs : gmap string string) : keeps (scrapeUrl env fuel u sels hs).
Proof.
  unfold scrapeUrl. apply keeps_try_catch.
  - apply keeps_bind; [apply keeps_fetchUrl|]. intros html.
    destruct (or_null html) as [body|]; [|apply keeps_throw].
    apply keeps_bind; [apply keeps_processSelectors|]. intros results.
    apply keeps_bind; [intros w; apply R_add_items|]. intros _.
    intros w. unfold bind, dispatch, get_svc.
    eapply R_trans; [apply R_progress | apply R_append].
  - intros e. apply keeps_bind; [apply keeps_handleError | intros _; apply keeps_throw].
Qed.

Lemma keeps_crawlLoop (fuel : nat) (cfg : ScraperConfig) (pg : PaginationConfig) :
  ∀ next pages, keeps (crawlLoop env fuel cfg pg next pages).
Proof.
  induction fuel as [|fuel IH]; intros next pages; simpl; [apply keeps_diverge|].
  apply keeps_bind; [apply keeps_get_svc|]. intros s.
  destruct (negb (falsy_opt next) && isRunning s && negb (shouldStop s)
            && pages_left pg pages); [|apply keeps_ret].
  apply keeps_bind.
  - destruct (isPaused s); [|apply keeps_ret].
    apply keeps_bind; [apply keeps_checkPause|]. intros _.
    apply keeps_bind; [apply keeps_get_svc | intros s'; apply keeps_ret].
  - intros [|]; [apply keeps_ret|].
    apply keeps_bind; [apply keeps_applyRateLimit|]. intros _.
    destruct (or_null _) as [u|]; [|apply IH].
    apply keeps_bind; [apply keeps_scrapeUrl | intros _; apply IH].
Qed.

(** The body of a run, from the first page to the end of the loop. *)
Lemma keeps_pages (fuel : nat) (cfg : ScraperConfig) :
  keeps (scrapeUrl env fuel (url cfg) (selectors cfg) (headers cfg) ;;;
         match paginated cfg with
         | Some pg => crawlLoop env fuel cfg pg (Some (url cfg)) 1
         | None => ret tt
         end).
Proof.
  apply keeps_bind; [apply keeps_scrapeUrl|]. intros _.
  destruct (paginated cfg); [apply keeps_crawlLoop | apply keeps_ret].
Qed.

(** Ending the run. *)
Hypothesis R_begin : ∀ w, R w (with_svc begin_run w).
Hypothesis R_complete : ∀ w, R w (dispatch_world env Slice.CompleteScraping w).
Hypothesis R_done : ∀ w, R w (with_svc (set_isRunning false) w).

Lemma keeps_finish : keeps (finish env).
Proof.
  unfold finish. apply keeps_bind; [apply keeps_get_svc|]. intros s.
  destruct (negb (shouldStop s)); [intros w; apply R_complete | apply keeps_ret].
Qed.

Lemma keeps_guarded (body : M unit) : keeps body → keeps (guarded env body).
Proof.
  intros Hb. unfold guarded. apply keeps_try_finally.
  - apply keeps_try_catch; [done | apply keeps_handleError].
  - intros w. apply R_done.
Qed.

Lemma keeps_run (fuel : nat) (cfg : ScraperConfig) :
  keeps (guarded env
           (scrapeUrl env fuel (url cfg) (selectors cfg) (headers cfg) ;;;
            match paginated cfg with
            | Some pg => crawlLoop env fuel cfg pg (Some (url cfg)) 1
            | None => ret tt
            end ;;;
            finish env)).
Proof.
  apply keeps_guarded.
  apply keeps_bind; [apply keeps_scrapeUrl|]. intros _.
  apply keeps_bind; [|intros _; apply keeps_finish].
  destruct (paginated cfg); [apply keeps_crawlLoop | apply keeps_ret].
Qed.

Lemma keeps_startScraping (fuel : nat) (cfg : ScraperConfig) :
  keeps (startScraping env fuel cfg).
Proof.
  unfold startScraping.
  destruct (falsy (url cfg) || (length (selectors cfg) =? 0)).
  - intros w. apply R_error.
  - apply keeps_bind; [intros w; apply R_begin | intros _; apply keeps_run].
Qed.

End Keeping.

(** A schedule in which the outside only calls the service's methods and
    does not dispatch to the store itself. *)
Definition is_call (c : Cmd) : Prop :=
  match c with
  | Dispatch _ => False
  | _ => True
  end.

Definition calls_only (w : World) : Prop :=
  Forall (Forall is_call) (sched w).

(** A schedule in which the outside only controls the run, as the
    application does with its pause, resume and stop buttons: it calls
    [pauseScraping], [resumeScraping] or [stopScraping], or the action of
    that name reaches the reducer. *)
Definition is_control (c : Cmd) : Prop :=
  match c with
  | CallPause | CallResume | CallStop => True
  | Dispatch Slice.PauseScraping | Dispatch Slice.ResumeScraping
  | Dispatch Slice.StopScraping => True
  | Dispatch _ => False
  end.

Definition controls_only (w : World) : Prop :=
  Forall (Forall is_control) (sched w).

Lemma is_call_control (c : Cmd) : is_call c → is_control c.
Proof. by destruct c. Qed.

Section Calls.

Variable env : Env.

(** What these commands leave alone. *)
Lemma controls_keep (cmds : list Cmd) :
  Forall is_control cmds →
  ∀ w, let w' := fold_left (run_cmd env) cmds w in
       sched w' = sched w ∧
       data (store w') = data (store w) ∧
       history (store w') = history (store w) ∧
       config (store w') = config (store w) ∧
       current (progress (store w')) = current (progress (store w)) ∧
       total (progress (store w')) = total (progress (store w)) ∧
       processedItems (svc w') = processedItems (svc w) ∧
       totalItems (svc w') = totalItems (svc w).
Proof.
  induction cmds as [|c cmds IH]; intros Hc w; simpl; [done|].
  apply Forall_cons in Hc as [Hc1 Hc2].
  destruct (IH Hc2 (run_cmd env w c)) as (-> & -> & -> & -> & -> & -> & -> & ->).
  destruct c as [| | |a]; simpl; try done.
  - rewrite stopScraping_world_stopped. unfold stopped.
    by destruct (stack_room env).
  - by destruct a.
Qed.

Lemma resumed_only (P : Cmd → Prop) (w : World) :
  (∀ c, P c → is_control c) →
  Forall (Forall P) (sched w) →
  Forall (Forall P) (sched (resumed env w)) ∧
  data (store (resumed env w)) = data (store w) ∧
  history (store (resumed env w)) = history (store w) ∧
  config (store (resumed env w)) = config (store w) ∧
  current (progress (store (resumed env w))) = current (progress (store w)) ∧
  total (progress (store (resumed env w))) = total (progress (store w)) ∧
  processedItems (svc (resumed env w)) = processedItems (svc w) ∧
  totalItems (svc (resumed env w)) = totalItems (svc w).
Proof.
  intros HP Hc. unfold resumed.
  assert (Hhd : Forall is_control (hd [] (sched w))).
  { destruct (sched w) as [|cmds s]; [constructor|].
    apply Forall_cons in Hc as [Hc _]. eapply Forall_impl; [exact Hc|exact HP]. }
  match goal with |- context [fold_left _ ?cmds ?x] =>
    destruct (controls_keep cmds Hhd x) as (-> & -> & -> & -> & -> & -> & -> & ->) end.
  simpl. split; [|done].
  destruct (sched w) as [|cmds s]; [constructor|]. by apply Forall_cons in Hc as [_ ?].
Qed.

Lemma resumed_calls (w : World) :
  calls_only w →
  calls_only (resumed env w) ∧ data (store (resumed env w)) = data (store w).
Proof.
  intros Hc.
  by destruct (resumed_only is_call w is_call_control Hc) as (? & ? & _).
Qed.

Lemma resumed_controls (w : World) :
  controls_only w →
  controls_only (resumed env w) ∧
  history (store (resumed env w)) = history (store w) ∧
  config (store (resumed env w)) = config (store w) ∧
  current (progress (store (resumed env w))) = current (progress (store w)) ∧
  total (progress (store (resumed env w))) = total (progress (store w)) ∧
  processedItems (svc (resumed env w)) = processedItems (svc w) ∧
  totalItems (svc (resumed env w)) = totalItems (svc w).
Proof.
  intros Hc.
  by destruct (resumed_only is_control w (fun c H => H) Hc) as (? & _ & ?).
Qed.

(** The records only grow. *)
Definition grows (w w' : World) : Prop :=
  calls_only w → calls_only w' ∧ data (store w) `prefix_of` data (store w').

Lemma grows_startScraping (fuel : nat) (cfg : ScraperConfig) :
  keeps grows (startScraping env fuel cfg).
Proof.
  apply (keeps_startScraping env grows); unfold grows; simpl; try done.
  - intros a b c Hab Hbc Ha. destruct (Hab Ha) as [Hb Hp1].
    destruct (Hbc Hb) as [Hc Hp2]. split; [done|by etrans].
  - intros w Hc. by destruct (resumed_calls w Hc) as (? & ->).
  - intros items w Hc. split; [done|]. by apply prefix_app_r.
Qed.

(** The history and the stored configuration stay as they are until the
    run completes. *)
Definition same_history (w w' : World) : Prop :=
  controls_only w →
  controls_only w' ∧ history (store w') = history (store w) ∧
  config (store w') = config (store w).

Lemma same_history_pages (fuel : nat) (cfg : ScraperConfig) :
  keeps same_history
    (scrapeUrl env fuel (url cfg) (selectors cfg) (headers cfg) ;;;
     match paginated cfg with
     | Some pg => crawlLoop env fuel cfg pg (Some (url cfg)) 1
     | None => ret tt
     end).
Proof.
  apply (keeps_pages env same_history); unfold same_history; simpl; try done.
  - intros a b c Hab Hbc Ha. destruct (Hab Ha) as (Hb & E1 & E2).
    destruct (Hbc Hb) as (Hc & E3 & E4). split; [done|]. split; congruence.
  - intros w Hc. by destruct (resumed_controls w Hc) as (? & -> & -> & _).
Qed.

(** The two counters of the service move together, and so do the two
    numbers of the progress in the store. *)
Definition in_step (w : World) : Prop :=
  processedItems (svc w) = totalItems (svc w) ∧
  current (progress (store w)) = total (progress (store w)).

Definition stays_in_step (w w' : World) : Prop :=
  controls_only w ∧ in_step w → controls_only w' ∧ in_step w'.

Lemma in_step_run (fuel : nat) (cfg : ScraperConfig) :
  keeps stays_in_step
    (guarded env
       (scrapeUrl env fuel (url cfg) (selectors cfg) (headers cfg) ;;;
        match paginated cfg with
        | Some pg => crawlLoop env fuel cfg pg (Some (url cfg)) 1
        | None => ret tt
        end ;;;
        finish env)).
Proof.
  apply (keeps_run env stays_in_step); unfold stays_in_step, in_step; simpl; try done.
  - intros a b c Hab Hbc Ha. by apply Hbc, Hab.
  - intros w [Hc [H1 H2]].
    destruct (resumed_controls w Hc) as (? & _ & _ & -> & -> & -> & ->). done.
  - intros n w [Hc [H1 H2]]. repeat split; try done. by rewrite H1.
  - intros w [Hc [H1 H2]]. by repeat split.
Qed.

End Calls.

(** X13. Records accumulate within a run: as long as the outside only
    calls the service's methods, the records in the store when
    [startScraping] ends begin with the records that were there when it
    was called. *)
Theorem startScraping_keeps_records (env : Env) (fuel : nat)
  (cfg : ScraperConfig) (w : World) :
  calls_only w →
  match startScraping env fuel cfg w with
  | Returned _ w' | Thrown _ w' => data (store w) `prefix_of` data (store w')
  | Diverged => True
  end.
Proof.
  intros Hc. pose proof (grows_startScraping env fuel cfg w) as H.
  destruct (startScraping env fuel cfg w); try done; by apply H.
Qed.

Definition busy_world : World :=
  {| store := Slice.appendScrapedData [ {[ "old" := VStr "kept" ]} ]
                (store Sample.world0);
     svc := scraperService; trace := [];
     sched := [[CallPause]; []; [CallResume]; [CallStop]];
     ticks := 0; gets := 0; uuids := 0 |}.

Definition two_pages : ScraperConfig :=
  Sample.plan "https://x.test" [Sample.sel "item" "css" "li" true]
    (Some (mkPagination true "url" (Some "https://x.test/p?page={page}") (Some 2%N))).

Lemma busy_world_calls_only : calls_only busy_world.
Proof. unfold calls_only. simpl. repeat constructor. Qed.

Lemma startScraping_keeps_records_witness :
  match startScraping (Sample.env Sample.online) 10 two_pages busy_world with
  | Returned _ w' | Thrown _ w' =>
      data (store busy_world) `prefix_of` data (store w')
  | Diverged => True
  end.
Proof.
  apply (startScraping_keeps_records (Sample.env Sample.online) 10 two_pages
           busy_world busy_world_calls_only).
Defined.

(** A run that the user pauses, resumes and stops through the store: each
    time the action reaches the reducer and the middleware calls the
    service. *)
Definition driven_world : World :=
  {| store := store Sample.world0; svc := scraperService; trace := [];
     sched := [ [Dispatch Slice.PauseScraping; CallPause]; [];
                [Dispatch Slice.ResumeScraping; CallResume];
                [Dispatch Slice.StopScraping; CallStop] ];
     ticks := 0; gets := 0; uuids := 0 |}.

Lemma driven_world_controls_only : controls_only driven_world.
Proof. unfold controls_only. simpl. repeat constructor. Qed.

(** X14. As long as the outside only pauses, resumes and stops the run
    (through the service or through the store), a run adds at most one
    entry to the history, and only when it ends completed: when
    [startScraping] returns, either the history is what it was, or the
    phase is completed and one entry was appended, which holds the stored
    address and the number of records in the store. *)
Theorem startScraping_history (env : Env) (fuel : nat) (cfg : ScraperConfig)
  (w : World) :
  controls_only w →
  match startScraping env fuel cfg w with
  | Returned _ w' =>
      history (store w') = history (store w)
      ∨ (status (store w') = Completed ∧
         ∃ entry, history (store w') = history (store w) ++ [entry] ∧
                  h_url entry = url (config (store w)) ∧
                  h_itemCount entry = length (data (store w')))
  | Thrown _ _ => False
  | Diverged => True
  end.
Proof.
  intros Hc. unfold startScraping.
  destruct (falsy (url cfg) || (length (selectors cfg) =? 0)); [by left|].
  rewrite (bind_returned _ _ w tt (with_svc begin_run w)) by done.
  unfold guarded, try_finally, try_catch.
  rewrite <- bind_assoc.
  pose proof (same_history_pages env fuel cfg (with_svc begin_run w)) as H.
  match goal with |- context [bind (bind ?m ?f) ?g ?x] =>
    change (bind (bind m f) g x) with (bind (fun w0 => bind m f w0) g x);
    unfold bind at 1; destruct (bind m f x) as [[] w1|e w1|] end;
    [| |done].
  - destruct (H Hc) as (_ & Hh & Hcfg). simpl in Hh, Hcfg.
    unfold finish, bind, get_svc.
    destruct (negb (shouldStop (svc w1))); simpl.
    + right. split; [done|]. eexists. split; [by rewrite Hh|]. simpl.
      by rewrite Hcfg.
    + by left.
  - destruct (H Hc) as (_ & Hh & _). simpl in Hh. left. exact Hh.
Qed.

Lemma startScraping_history_witness :
  match startScraping (Sample.env Sample.online) 10 two_pages driven_world with
  | Returned _ w' =>
      history (store w') = history (store driven_world)
      ∨ (status (store w') = Completed ∧
         ∃ entry, history (store w') = history (store driven_world) ++ [entry] ∧
                  h_url entry = url (config (store driven_world)) ∧
                  h_itemCount entry = length (data (store w')))
  | Thrown _ _ => False
  | Diverged => True
  end.
Proof.
  apply (startScraping_history (Sample.env Sample.online) 10 two_pages
           driven_world driven_world_controls_only).
Defined.

(** X15. As long as the outside only pauses, resumes and stops the run
    (through the service or through the store), the two numbers of the
    progress stay equal: the service adds the same number to both of its
    counters, so if the store's progress has [current = total] when
    [startScraping] is called (as it has after the [startScraping] action
    reset it), it has when the run ends. *)
Theorem startScraping_progress_in_step (env : Env) (fuel : nat)
  (cfg : ScraperConfig) (w : World) :
  controls_only w →
  current (progress (store w)) = total (progress (store w)) →
  match startScraping env fuel cfg w with
  | Returned _ w' | Thrown _ w' =>
      current (progress (store w')) = total (progress (store w'))
  | Diverged => True
  end.
Proof.
  intros Hc Hp. unfold startScraping.
  destruct (falsy (url cfg) || (length (selectors cfg) =? 0)); [done|].
  rewrite (bind_returned _ _ w tt (with_svc begin_run w)) by done.
  pose proof (in_step_run env fuel cfg (with_svc begin_run w)) as H.
  match goal with |- match ?o with _ => _ end => destruct o as [a w1|e w1|] end;
    try done; by apply H.
Qed.

Lemma startScraping_progress_in_step_witness :
  match startScraping (Sample.env Sample.online) 10 two_pages driven_world with
  | Returned _ w' | Thrown _ w' =>
      current (progress (store w')) = total (progress (store w'))
  | Diverged => True
  end.
Proof.
  apply (startScraping_progress_in_step (Sample.env Sample.online) 10 two_pages
           driven_world driven_world_controls_only).
  reflexivity.
Defined.

(** ** The crawl loop and the page budget *)

(** A network on which every request brings a page back. *)
Definition net_ok (env : Env) : Prop :=
  ∀ n u, ∃ body, axios_get env n u = Resolved 200 body ∧ body ≠ EmptyString.

(** A schedule without any call from outside. *)
Definition quiet (w : World) : Prop := Forall (fun cmds => cmds = []) (sched w).

(** The flags and the configuration of the service stay as they are. *)
Definition settled (w w' : World) : Prop :=
  quiet w →
  quiet w' ∧
  isRunning (svc w') = isRunning (svc w) ∧
  isPaused (svc w') = isPaused (svc w) ∧
  shouldStop (svc w') = shouldStop (svc w) ∧
  serviceConfig (svc w') = serviceConfig (svc w).

Definition same_gets (w w' : World) : Prop := gets w' = gets w.

Section Crawling.

Variable env : Env.

Lemma resumed_quiet (w : World) :
  quiet w →
  resumed env w = {| store := store w; svc := svc w; trace := trace w;
                     sched := tail (sched w); ticks := S (ticks w);
                     gets := gets w; uuids := uuids w |} ∧
  quiet (resumed env w).
Proof.
  intros Hq. unfold resumed, quiet in *.
  destruct (sched w) as [|cmds s]; simpl; [by split|].
  apply Forall_cons in Hq as [-> Hq]. simpl. by split.
Qed.

Lemma settled_trans (a b c : World) : settled a b → settled b c → settled a c.
Proof.
  intros Hab Hbc Ha. destruct (Hab Ha) as (Hb & E1 & E2 & E3 & E4).
  destruct (Hbc Hb) as (Hc & F1 & F2 & F3 & F4).
  split; [done|]. repeat split; congruence.
Qed.

Lemma settled_resumed (w : World) : settled w (resumed env w).
Proof.
  intros Hq. destruct (resumed_quiet w Hq) as [E Hq']. split; [done|].
  by rewrite E.
Qed.

Lemma settled_scrapeUrl (fuel : nat) (u : string) (sels : list SelectorConfig)
  (hs : gmap string string) : keeps settled (scrapeUrl env fuel u sels hs).
Proof.
  apply (keeps_scrapeUrl env settled); unfold settled; simpl; try done.
  - exact settled_trans.
  - exact settled_resumed.
Qed.

Lemma settled_applyRateLimit (rl : RateLimitConfig) :
  keeps settled (applyRateLimit env rl).
Proof.
  apply (keeps_applyRateLimit env settled); unfold settled; simpl; try done.
  - exact settled_trans.
  - exact settled_resumed.
Qed.

Lemma same_gets_processSelectors (html : string)
  (sels : list SelectorConfig) : keeps same_gets (processSelectors env html sels).
Proof.
  apply (keeps_processSelectors env same_gets); unfold same_gets; simpl; try done.
  intros a b c. congruence.
Qed.

Lemma same_gets_applyRateLimit (rl : RateLimitConfig) :
  keeps same_gets (applyRateLimit env rl).
Proof.
  apply (keeps_applyRateLimit env same_gets); unfold same_gets; simpl; try done.
  - intros a b c. congruence.
  - intros w. by destruct (resumed_keeps env w) as (_ & _ & ->).
Qed.

Lemma processSelectors_outcome (html : string) (sels : list SelectorConfig)
  (w : World) :
  ∃ items w', processSelectors env html sels w = Returned items w'.
Proof.
  unfold processSelectors, try_catch.
  destruct (cheerio_load env html) as [doc|e]; simpl; [|by eexists _, _].
  unfold bind at 1. simpl.
  destruct (applySelectors_outcome env doc html sels no_results w (well_keyed_empty))
    as (acc & w1 & E & _).
  rewrite (bind_returned _ _ _ _ _ E). by eexists _, _.
Qed.

(** One page on a network that answers: one request, then the selectors. *)
Lemma scrapeUrl_online (fuel : nat) (u : string) (sels : list SelectorConfig)
  (hs : gmap string string) (w : World) :
  net_ok env →
  ∃ w', scrapeUrl env (S fuel) u sels hs w = Returned tt w' ∧
        gets w' = S (gets w).
Proof.
  intros Hok.
  destruct (Hok (gets w) (requestUrl_of env (serviceConfig (svc w)) u))
    as (body & Hget & Hbody).
  assert (Hfetch : fetchUrl env (S fuel) u hs 0 w
                   = Returned (Some body) (requested env u hs w)).
  { rewrite fetchUrl_unfold. unfold try_catch.
    by rewrite (attempt_succeeds env u hs w body Hget). }
  unfold scrapeUrl, try_catch.
  rewrite (bind_returned _ _ _ _ _ Hfetch).
  assert (Hnull : or_null (Some body) = Some body) by (by destruct body).
  rewrite Hnull.
  destruct (processSelectors_outcome body sels (requested env u hs w))
    as (results & w1 & Hp).
  pose proof (same_gets_processSelectors body sels (requested env u hs w)) as Hg.
  rewrite Hp in Hg. rewrite (bind_returned _ _ _ _ _ Hp).
  eexists. split; [reflexivity|]. simpl. unfold same_gets in Hg. rewrite Hg.
  by destruct (requested_keeps env u hs w) as (_ & _ & ->).
Qed.

Lemma getNextPageUrl_other (currentUrl : string) (pg : PaginationConfig) (n : N) :
  pg_type pg ≠ "url" → getNextPageUrl currentUrl pg n = None.
Proof.
  intros H. unfold getNextPageUrl. apply String.eqb_neq in H. rewrite H.
  destruct (negb (pg_enabled pg) || falsy_opt (pg_selector pg)); [done|].
  destruct (String.eqb (pg_type pg) "button"); [done|].
  by destruct (String.eqb (pg_type pg) "infinite").
Qed.

Lemma getNextPageUrl_url (currentUrl : string) (pg : PaginationConfig) (n : N) :
  pg_enabled pg = true → pg_type pg = "url" → falsy_opt (pg_selector pg) = false →
  ∃ u, getNextPageUrl currentUrl pg n = Some u ∧ or_null (Some u) = Some u.
Proof.
  intros Hen Hty Hsel. unfold getNextPageUrl. rewrite Hen, Hty, Hsel. simpl.
  eexists. split; [done|].
  destruct (pg_selector pg) as [e|]; [|done]. simpl in *.
  assert (Hpat : "{page}" ≠ EmptyString) by done.
  assert (Hne : replace_first "{page}" (toString n) e ≠ EmptyString).
  { destruct (replace_first_spec "{page}" (toString n) e Hpat)
      as [[_ ->] | (pre & post & _ & _ & ->)].
    - intros ->. done.
    - apply append_nonempty_r, append_nonempty_l, toString_nonempty. }
  by destruct (replace_first "{page}" (toString n) e).
Qed.

(** The loop, unfolded once, when it goes on and the run is not paused. *)
Lemma crawlLoop_goes_on (fuel : nat) (cfg : ScraperConfig) (pg : PaginationConfig)
  (next : option string) (pages : N) (w : World) :
  falsy_opt next = false → isRunning (svc w) = true →
  shouldStop (svc w) = false → isPaused (svc w) = false →
  pages_left pg pages = true →
  crawlLoop env (S fuel) cfg pg next pages w
  = (applyRateLimit env (rateLimit cfg) ;;;
     match or_null (getNextPageUrl (default EmptyString next) pg (pages + 1)) with
     | Some u =>
         scrapeUrl env fuel u (selectors cfg) (headers cfg) ;;;
         crawlLoop env fuel cfg pg
           (getNextPageUrl (default EmptyString next) pg (pages + 1)) (pages + 1)
     | None =>
         crawlLoop env fuel cfg pg
           (getNextPageUrl (default EmptyString next) pg (pages + 1)) pages
     end) w.
Proof.
  intros Hn Hr Hs Hp Hl. simpl. unfold bind at 1. unfold get_svc at 1.
  by rewrite Hn, Hr, Hs, Hp, Hl.
Qed.

Lemma crawlLoop_exits (fuel : nat) (cfg : ScraperConfig) (pg : PaginationConfig)
  (next : option string) (pages : N) (w : World) :
  negb (falsy_opt next) && isRunning (svc w) && negb (shouldStop (svc w))
  && pages_left pg pages = false →
  crawlLoop env (S fuel) cfg pg next pages w = Returned tt w.
Proof.
  intros H. simpl. unfold bind, get_svc. by rewrite H.
Qed.

Lemma crawlLoop_endless (cfg : ScraperConfig) (pg : PaginationConfig) :
  net_ok env →
  pg_enabled pg = true → pg_type pg = "url" → falsy_opt (pg_selector pg) = false →
  (∀ pages, pages_left pg pages = true) →
  ∀ (fuel : nat) (next : option string) (pages : N) (w : World),
    falsy_opt next = false → isRunning (svc w) = true →
    shouldStop (svc w) = false → isPaused (svc w) = false → quiet w →
    crawlLoop env fuel cfg pg next pages w = Diverged.
Proof.
  intros Hok Hen Hty Hsel Hleft fuel.
  induction fuel as [|fuel IH]; intros next pages w Hn Hr Hs Hp Hq; [done|].
  rewrite crawlLoop_goes_on by done.
  pose proof (settled_applyRateLimit (rateLimit cfg) w) as H1.
  unfold bind at 1.
  destruct (applyRateLimit env (rateLimit cfg) w) as [[] w1|e w1|] eqn:E1; [|exfalso|done].
  2:{ unfold applyRateLimit in E1. destruct (0 <? requestDelay (rateLimit cfg))%N;
        discriminate E1. }
  destruct (H1 Hq) as (Hq1 & R1 & P1 & S1 & _).
  destruct (getNextPageUrl_url (default EmptyString next) pg (pages + 1) Hen Hty Hsel)
    as (u & Hu1 & Hu2).
  rewrite Hu1, Hu2.
  pose proof (settled_scrapeUrl fuel u (selectors cfg) (headers cfg) w1) as H2.
  unfold bind at 1.
  destruct (scrapeUrl env fuel u (selectors cfg) (headers cfg) w1)
    as [[] w2|e w2|] eqn:E2; [| |done].
  - destruct (H2 Hq1) as (Hq2 & R2 & P2 & S2 & _).
    apply IH; try done; try congruence.
    destruct u; [discriminate Hu2|done].
  - exfalso. destruct fuel as [|fuel]; [discriminate E2|].
    destruct (scrapeUrl_online fuel u (selectors cfg) (headers cfg) w1 Hok)
      as (w3 & H3 & _).
    by rewrite E2 in H3.
Qed.

End Crawling.

Section Budget.

Variable env : Env.

Lemma applyRateLimit_returns (rl : RateLimitConfig) (w : World) :
  ∃ w', applyRateLimit env rl w = Returned tt w'.
Proof.
  unfold applyRateLimit. destruct (0 <? requestDelay rl)%N; by eexists.
Qed.

Lemma crawlLoop_spends (cfg : ScraperConfig) (pg : PaginationConfig) (m : N) :
  net_ok env →
  pg_enabled pg = true → pg_type pg = "url" → falsy_opt (pg_selector pg) = false →
  pg_maxPages pg = Some m → m ≠ 0%N →
  ∀ (n fuel : nat) (next : option string) (pages : N) (w : World),
    (pages + N.of_nat n = m)%N →
    falsy_opt next = false → isRunning (svc w) = true →
    shouldStop (svc w) = false → isPaused (svc w) = false → quiet w →
    n < fuel →
    ∃ w', crawlLoop env fuel cfg pg next pages w = Returned tt w' ∧
          gets w' = n + gets w ∧
          quiet w' ∧ shouldStop (svc w') = false.
Proof.
  intros Hok Hen Hty Hsel Hmax Hm n.
  induction n as [|n IH]; intros fuel next pages w Hpages Hn Hr Hs Hp Hq Hfuel;
    (destruct fuel as [|fuel]; [lia|]).
  - exists w. split; [|done].
    apply crawlLoop_exits. unfold pages_left. rewrite Hmax.
    assert (pages = m) as -> by lia.
    destruct (N.eqb_spec m 0) as [|_]; [done|]. rewrite N.ltb_irrefl. simpl.
    by rewrite !andb_false_r.
  - assert (Hleft : pages_left pg pages = true).
    { unfold pages_left. rewrite Hmax.
      assert (Hlt : (pages <? m)%N = true) by (apply N.ltb_lt; lia).
      rewrite Hlt. by rewrite orb_true_r. }
    rewrite crawlLoop_goes_on by done.
    destruct (applyRateLimit_returns (rateLimit cfg) w) as (w1 & E1).
    pose proof (settled_applyRateLimit env (rateLimit cfg) w) as S1.
    pose proof (same_gets_applyRateLimit env (rateLimit cfg) w) as G1.
    rewrite E1 in S1, G1. destruct (S1 Hq) as (Hq1 & R1 & P1 & T1 & _).
    rewrite (bind_returned _ _ _ _ _ E1).
    destruct (getNextPageUrl_url (default EmptyString next) pg (pages + 1) Hen Hty Hsel)
      as (u & Hu1 & Hu2).
    rewrite Hu1, Hu2.
    destruct fuel as [|fuel]; [lia|].
    destruct (scrapeUrl_online env fuel u (selectors cfg) (headers cfg) w1 Hok)
      as (w2 & E2 & G2).
    pose proof (settled_scrapeUrl env (S fuel) u (selectors cfg) (headers cfg) w1) as S2.
    rewrite E2 in S2.
    destruct (S2 Hq1) as (Hq2 & R2 & P2 & T2 & _).
    rewrite (bind_returned _ _ _ _ _ E2).
    destruct (IH (S fuel) (Some u) (pages + 1)%N w2) as (w3 & E3 & G3 & Hq3 & T3);
      try done; try congruence; try lia.
    { destruct u; [discriminate Hu2|done]. }
    exists w3. split; [done|]. split; [|done].
    rewrite G3, G2. unfold same_gets in G1. lia.
Qed.

End Budget.

(** X16. In the pagination modes other than [url] ([button], [infinite] or
    an unknown mode) no further page is ever requested: an iteration of the
    loop that is not paused waits out the delay, finds no next address and
    leaves the loop. *)
Theorem crawlLoop_other_modes (env : Env) (fuel : nat) (cfg : ScraperConfig)
  (pg : PaginationConfig) (next : option string) (pages : N) (w : World) :
  pg_type pg ≠ "url" → isPaused (svc w) = false →
  ∃ w', crawlLoop env (S (S fuel)) cfg pg next pages w = Returned tt w' ∧
        gets w' = gets w.
Proof.
  intros Hty Hp.
  destruct (negb (falsy_opt next) && isRunning (svc w) && negb (shouldStop (svc w))
            && pages_left pg pages) eqn:Hc.
  - apply andb_prop in Hc as [Hc Hl]. apply andb_prop in Hc as [Hc Hs].
    apply andb_prop in Hc as [Hn Hr].
    apply negb_true_iff in Hn, Hs.
    rewrite crawlLoop_goes_on by done.
    rewrite (getNextPageUrl_other _ pg _ Hty). cbn [or_null].
    destruct (applyRateLimit_returns env (rateLimit cfg) w) as (w1 & E1).
    pose proof (same_gets_applyRateLimit env (rateLimit cfg) w) as G1.
    rewrite E1 in G1.
    rewrite (bind_returned _ _ _ _ _ E1).
    exists w1. split; [|exact G1].
    by apply crawlLoop_exits.
  - exists w. split; [|done]. by apply crawlLoop_exits.
Qed.

Lemma crawlLoop_other_modes_witness :
  ∃ w', crawlLoop (Sample.env Sample.online) 2 two_pages
          (mkPagination true "button" (Some ".next") None)
          (Some "https://x.test") 1
          (with_svc (set_isRunning true) Sample.world0) = Returned tt w' ∧
        gets w' = gets (with_svc (set_isRunning true) Sample.world0).
Proof.
  apply (crawlLoop_other_modes (Sample.env Sample.online) 0 two_pages
           (mkPagination true "button" (Some ".next") None)
           (Some "https://x.test") 1 (with_svc (set_isRunning true) Sample.world0));
    [discriminate | reflexivity].
Defined.

(** X17. Without a page limit ([maxPages] absent or 0) the [url] mode never
    runs out of pages: on a network that answers every request, and with
    nobody stopping the run, the loop does not end. *)
Theorem crawlLoop_without_limit (env : Env) (fuel : nat) (cfg : ScraperConfig)
  (pg : PaginationConfig) (next : option string) (pages : N) (w : World) :
  net_ok env →
  pg_enabled pg = true → pg_type pg = "url" → falsy_opt (pg_selector pg) = false →
  pg_maxPages pg = None ∨ pg_maxPages pg = Some 0%N →
  falsy_opt next = false → isRunning (svc w) = true →
  shouldStop (svc w) = false → isPaused (svc w) = false → quiet w →
  crawlLoop env fuel cfg pg next pages w = Diverged.
Proof.
  intros Hok Hen Hty Hsel Hmax. apply crawlLoop_endless; try done.
  intros p. unfold pages_left. by destruct Hmax as [-> | ->].
Qed.

Lemma crawlLoop_without_limit_witness :
  crawlLoop (Sample.env Sample.online) 30 two_pages
    (mkPagination true "url" (Some "https://x.test/p?page={page}") None)
    (Some "https://x.test") 1 (with_svc (set_isRunning true) Sample.world0)
  = Diverged.
Proof.
  apply (crawlLoop_without_limit (Sample.env Sample.online) 30 two_pages
           (mkPagination true "url" (Some "https://x.test/p?page={page}") None)
           (Some "https://x.test") 1 (with_svc (set_isRunning true) Sample.world0));
    try reflexivity.
  - intros n u. exists "<html>". by split.
  - by left.
  - constructor.
Defined.

(** X18. The page budget counts the first page: with [maxPages = m >= 1]
    in [url] mode, on a network that answers every request and with nobody
    calling the service, [startScraping] makes exactly [m] requests and
    ends completed, with one new history entry. *)
Theorem startScraping_page_budget (env : Env) (fuel : nat) (cfg : ScraperConfig)
  (pg : PaginationConfig) (m : N) (w : World) :
  net_ok env →
  url cfg ≠ EmptyString → selectors cfg ≠ [] →
  pagination cfg = Some pg →
  pg_enabled pg = true → pg_type pg = "url" → falsy_opt (pg_selector pg) = false →
  pg_maxPages pg = Some m → m ≠ 0%N →
  quiet w → N.to_nat m < fuel →
  ∃ w', startScraping env fuel cfg w = Returned tt w' ∧
        gets w' = N.to_nat m + gets w ∧
        status (store w') = Completed ∧
        length (history (store w')) = S (length (history (store w))) ∧
        isRunning (svc w') = false.
Proof.
  intros Hok Hurl Hne Hpag Hen Hty Hsel Hmax Hm Hq Hfuel.
  assert (Hrej : falsy (url cfg) || (length (selectors cfg) =? 0) = false).
  { destruct (url cfg); [done|]. by destruct (selectors cfg). }
  assert (Hpg : paginated cfg = Some pg).
  { unfold paginated. by rewrite Hpag, Hen, Hsel. }
  destruct fuel as [|fuel]; [lia|].
  set (w0 := with_svc begin_run w).
  destruct (scrapeUrl_online env fuel (url cfg) (selectors cfg) (headers cfg) w0 Hok)
    as (w1 & E1 & G1).
  pose proof (settled_scrapeUrl env (S fuel) (url cfg) (selectors cfg) (headers cfg) w0)
    as S1.
  rewrite E1 in S1.
  destruct (S1 Hq) as (Hq1 & R1 & P1 & T1 & _). simpl in R1, P1, T1.
  destruct (crawlLoop_spends env cfg pg m Hok Hen Hty Hsel Hmax Hm
              (N.to_nat m - 1) (S fuel) (Some (url cfg)) 1%N w1)
    as (w2 & E2 & G2 & Hq2 & T2); try done; try lia.
  { by destruct (url cfg). }
  assert (Hpages :
    (scrapeUrl env (S fuel) (url cfg) (selectors cfg) (headers cfg) ;;;
     match paginated cfg with
     | Some pg => crawlLoop env (S fuel) cfg pg (Some (url cfg)) 1
     | None => ret tt
     end) w0 = Returned tt w2).
  { rewrite (bind_returned _ _ _ _ _ E1). by rewrite Hpg. }
  pose proof (same_history_pages env (S fuel) cfg w0) as Hh.
  rewrite Hpages in Hh.
  assert (Hc0 : controls_only w0).
  { unfold controls_only, quiet in *. simpl. eapply Forall_impl; [exact Hq|].
    intros cmds ->. constructor. }
  destruct (Hh Hc0) as (_ & Hhist & _). simpl in Hhist.
  exists (with_svc (set_isRunning false) (dispatch_world env Slice.CompleteScraping w2)).
  split.
  - unfold startScraping. rewrite Hrej.
    rewrite (bind_returned _ _ w tt w0) by done.
    unfold guarded, try_finally, try_catch.
    rewrite <- bind_assoc.
    match goal with |- context [bind (bind ?a ?b) ?c w0] =>
      rewrite (bind_returned (bind a b) c w0 tt w2 Hpages) end.
    unfold finish, bind, get_svc. by rewrite T2.
  - simpl. rewrite length_app, Hhist. simpl. repeat split; [|lia].
    rewrite G2, G1. simpl. lia.
Qed.

Lemma startScraping_page_budget_witness :
  ∃ w', startScraping (Sample.env Sample.online) 4
          (Sample.plan "https://x.test" [Sample.sel "item" "css" "li" true]
             (Some (mkPagination true "url"
                      (Some "https://x.test/p?page={page}") (Some 3%N))))
          Sample.world0 = Returned tt w' ∧
        gets w' = N.to_nat 3 + gets Sample.world0 ∧
        status (store w') = Completed ∧
        length (history (store w')) = S (length (history (store Sample.world0))) ∧
        isRunning (svc w') = false.
Proof.
  apply (startScraping_page_budget (Sample.env Sample.online) 4
           (Sample.plan "https://x.test" [Sample.sel "item" "css" "li" true]
              (Some (mkPagination true "url"
                       (Some "https://x.test/p?page={page}") (Some 3%N))))
           (mkPagination true "url" (Some "https://x.test/p?page={page}") (Some 3%N))
           3 Sample.world0); try reflexivity; try discriminate.
  - intros n u. exists "<html>". by split.
  - constructor.
  - simpl. lia.
Defined.

(** ** The store slice *)

Lemma filter_all_kept (P : SelectorConfig → bool) (l : list SelectorConfig) :
  Forall (fun x => P x = true) l → List.filter P l = l.
Proof.
  induction l as [|x l IH]; intros H; simpl; [done|].
  apply Forall_cons in H as [-> H]. by rewrite IH.
Qed.

(** X19. Adding a selector under an identifier that no selector of the
    list has, and then removing that identifier, gives the state back. *)
Theorem removeSelector_addSelector (uuid : string) (payload : SelectorConfig)
  (s : ScraperState) :
  Forall (fun x => sel_id x ≠ uuid) (selectors (config s)) →
  Slice.removeSelector uuid (Slice.addSelector uuid payload s) = s.
Proof.
  intros Hfresh. destruct s as [[u sels pg rl hs] st d er pr hi]. simpl in *.
  unfold Slice.removeSelector, Slice.addSelector, Slice.with_selectors,
    Slice.with_config. simpl. do 2 f_equal.
  rewrite List.filter_app. simpl. rewrite String.eqb_refl. simpl.
  rewrite app_nil_r. apply filter_all_kept.
  eapply Forall_impl; [exact Hfresh|]. intros x Hx. simpl in Hx.
  apply String.eqb_neq in Hx. by rewrite Hx.
Qed.

Lemma removeSelector_addSelector_witness :
  Slice.removeSelector "fresh"
    (Slice.addSelector "fresh" (Sample.sel "x" "css" "h1" false)
       (Slice.addSelector "a" (Sample.sel "y" "css" "li" true) Slice.initialState))
  = Slice.addSelector "a" (Sample.sel "y" "css" "li" true) Slice.initialState.
Proof.
  apply (removeSelector_addSelector "fresh" (Sample.sel "x" "css" "h1" false)
           (Slice.addSelector "a" (Sample.sel "y" "css" "li" true) Slice.initialState)).
  repeat constructor. discriminate.
Defined.

Lemma replace_by_id_length (payload : SelectorConfig) (l : list SelectorConfig) :
  length (Slice.replace_by_id payload l) = length l.
Proof.
  induction l as [|x l IH]; simpl; [done|].
  destruct (String.eqb (sel_id x) (sel_id payload)); simpl; [done|]. by rewrite IH.
Qed.

Lemma replace_by_id_absent (payload : SelectorConfig) (l : list SelectorConfig) :
  Forall (fun x => sel_id x ≠ sel_id payload) l →
  Slice.replace_by_id payload l = l.
Proof.
  induction l as [|x l IH]; intros H; simpl; [done|].
  apply Forall_cons in H as [Hx H]. apply String.eqb_neq in Hx. rewrite Hx.
  by rewrite IH.
Qed.

Lemma replace_by_id_first (payload x : SelectorConfig)
  (pre post : list SelectorConfig) :
  Forall (fun y => sel_id y ≠ sel_id payload) pre →
  sel_id x = sel_id payload →
  Slice.replace_by_id payload (pre ++ x :: post) = pre ++ payload :: post.
Proof.
  induction pre as [|y pre IH]; intros H Hx; simpl.
  - by rewrite Hx, String.eqb_refl.
  - apply Forall_cons in H as [Hy H]. apply String.eqb_neq in Hy. rewrite Hy.
    by rewrite IH.
Qed.

(** X20. [updateSelector] replaces the first selector that has the
    payload's identifier and nothing else: the list keeps its length, the
    selectors before and after stay, and when no selector has that
    identifier the list is unchanged. *)
Theorem updateSelector_first_match (payload : SelectorConfig) (s : ScraperState) :
  length (selectors (config (Slice.updateSelector payload s)))
  = length (selectors (config s)) ∧
  (Forall (fun x => sel_id x ≠ sel_id payload) (selectors (config s)) →
   selectors (config (Slice.updateSelector payload s)) = selectors (config s)) ∧
  (∀ pre x post,
     selectors (config s) = pre ++ x :: post →
     Forall (fun y => sel_id y ≠ sel_id payload) pre →
     sel_id x = sel_id payload →
     selectors (config (Slice.updateSelector payload s)) = pre ++ payload :: post).
Proof.
  unfold Slice.updateSelector, Slice.with_selectors, Slice.with_config. simpl.
  split; [apply replace_by_id_length|]. split.
  - apply replace_by_id_absent.
  - intros pre x post -> Hpre Hx. by apply replace_by_id_first.
Qed.

Lemma updateSelector_first_match_witness :
  let s := Slice.addSelector "b" (Sample.sel "y" "css" "li" true)
             (Slice.addSelector "a" (Sample.sel "x" "css" "h1" false)
                Slice.initialState) in
  let payload := mkSelector "b" "y" "regex" "li" None false in
  selectors (config (Slice.updateSelector payload s))
  = [mkSelector "a" "x" "css" "h1" None false] ++ payload :: [].
Proof.
  apply (proj2 (proj2 (updateSelector_first_match
                         (mkSelector "b" "y" "regex" "li" None false)
                         (Slice.addSelector "b" (Sample.sel "y" "css" "li" true)
                            (Slice.addSelector "a" (Sample.sel "x" "css" "h1" false)
                               Slice.initialState))))
           [mkSelector "a" "x" "css" "h1" None false]
           (mkSelector "b" "y" "css" "li" None true) []).
  - reflexivity.
  - repeat constructor. discriminate.
  - reflexivity.
Defined.

(** X21. The history only grows: whatever action other than [resetScraper]
    the reducer runs, the history afterwards begins with the history
    before, and it is longer, by one entry, for [completeScraping] only. *)
Theorem reducer_history_grows (now : Z) (uuid : string) (a : Slice.Action)
  (s : ScraperState) :
  a ≠ Slice.ResetScraper →
  history s `prefix_of` history (Slice.reducer now uuid a s) ∧
  (a ≠ Slice.CompleteScraping → history (Slice.reducer now uuid a s) = history s) ∧
  (a = Slice.CompleteScraping →
   history (Slice.reducer now uuid a s)
   = history s ++ [mkHistory uuid (url (config s)) now (length (data s))]).
Proof.
  intros Hr. destruct a; simpl; try done;
    (split; [try reflexivity; try by apply prefix_app_r|]); split; try done.
Qed.

Lemma reducer_history_grows_witness :
  history Slice.initialState
    `prefix_of` history (Slice.reducer 5 "id" Slice.CompleteScraping Slice.initialState).
Proof.
  apply (reducer_history_grows 5 "id" Slice.CompleteScraping Slice.initialState).
  discriminate.
Defined.

(** ** The store's middleware ([scraperMiddleware])

    [store.dispatch(action)] of the configured store, for an action that
    comes from outside the service: the middleware passes the action on to
    the reducer, and then calls the service for the four actions it knows.

    For [startScraping] it calls [scraperService.startScraping(config)]
    with the plan it reads from the store. Like every [async] method here
    the call is followed to the end of what it sets going: the dispatch
    itself returns when the run first waits (or at once, when the plan is
    refused), and what the caller does from then on is in the schedule.
    The promise never rejects, so the [catch] attached to it has nothing
    to do. *)

Section Middleware.

Variable env : Env.

Definition store_dispatch (fuel : nat) (a : Slice.Action) : M unit :=
  dispatch env a ;;;
  match a with
  | Slice.StartScraping => fun w => startScraping env fuel (config (store w)) w
  | Slice.PauseScraping => pauseScraping
  | Slice.ResumeScraping => resumeScraping
  | Slice.StopScraping => stopScraping env
  | _ => ret tt
  end.

Lemma startScraping_never_throws (fuel : nat) (cfg : ScraperConfig) (w : World)
  (e : JsValue) (w' : World) :
  startScraping env fuel cfg w ≠ Thrown e w'.
Proof.
  unfold startScraping.
  destruct (falsy (url cfg) || (length (selectors cfg) =? 0)); [done|].
  rewrite (bind_returned _ _ w tt (with_svc begin_run w)) by done.
  unfold guarded, try_finally, try_catch.
  match goal with |- context [bind ?m ?k (with_svc begin_run w)] =>
    destruct (bind m k (with_svc begin_run w)) as [a w1|e1 w1|] end; simpl; done.
Qed.

End Middleware.

(** X22. Dispatching [stopScraping] to the configured store never returns:
    the middleware calls the service's [stopScraping], which dispatches
    [stopScraping] to the same store, and so on until the call stack is
    exhausted; the caller gets the [RangeError], with the store idle, the
    stop flag set and the records and the history untouched. Dispatching
    [startScraping] while the stored plan has no address or no selector
    starts no run: no request is made, and the dispatch leaves the store
    in the error phase, with the message of the refusal and without
    records. Whatever the plan, nothing is thrown to the one who
    dispatches [startScraping]. *)
Theorem store_dispatch_stop_and_start (env : Env) (fuel : nat) (w : World) :
  (∃ w', store_dispatch env fuel Slice.StopScraping w = Thrown stack_overflow w' ∧
         status (store w') = Idle ∧
         shouldStop (svc w') = true ∧ isPaused (svc w') = false ∧
         data (store w') = data (store w) ∧
         history (store w') = history (store w)) ∧
  (url (config (store w)) = EmptyString ∨ selectors (config (store w)) = [] →
   ∃ w', store_dispatch env fuel Slice.StartScraping w = Returned tt w' ∧
         status (store w') = Error ∧
         error (store w') = Some "URL and at least one selector are required" ∧
         data (store w') = [] ∧
         svc w' = svc w ∧ gets w' = gets w ∧ trace w' = trace w) ∧
  (∀ e w', store_dispatch env fuel Slice.StartScraping w ≠ Thrown e w').
Proof.
  split; [|split].
  - exists (stopped env (stack_room env) (dispatch_world env Slice.StopScraping w)).
    split.
    + unfold store_dispatch, bind, dispatch, stopScraping.
      by rewrite stopScraping_nested_run.
    + unfold stopped. by destruct (stack_room env).
  - intros Hbad.
    assert (Hc : falsy (url (config (store w)))
                 || (length (selectors (config (store w))) =? 0) = true).
    { destruct Hbad as [-> | ->]; [done|]. by rewrite orb_true_r. }
    eexists. split.
    + unfold store_dispatch, bind, dispatch, startScraping. simpl.
      rewrite Hc. reflexivity.
    + by repeat split.
  - intros e w'. unfold store_dispatch, bind, dispatch.
    apply startScraping_never_throws.
Qed.

(** The store right after the application's first start, with the initial
    (empty) plan: the error phase. *)
Example store_dispatch_initial_plan :
  ∃ w', store_dispatch (Sample.env Sample.online) 5 Slice.StartScraping
          {| store := Slice.initialState; svc := scraperService; trace := [];
             sched := []; ticks := 0; gets := 0; uuids := 0 |}
        = Returned tt w' ∧
        status (store w') = Error ∧ isRunning (svc w') = false ∧ gets w' = 0.
Proof. eexists. split; [reflexivity|]. by repeat split. Qed.

(** ** The data preview: pages of the table and the CSV export *)

(** [filteredAndSortedData.slice(startIndex, startIndex + rowsPerPage)]
    with [startIndex = page * rowsPerPage]. *)
Definition paginatedData {A} (rows : list A) (page rowsPerPage : nat) : list A :=
  take rowsPerPage (drop (page * rowsPerPage) rows).

(** X23. The pages of the table cut the rows into consecutive pieces of at
    most [rowsPerPage] rows: the first [n] pages put end to end are the
    first [n * rowsPerPage] rows, so all the rows once [n] pages can hold
    them, and a page past the end is empty. *)
Theorem paginatedData_partition {A} (rows : list A) (rowsPerPage n : nat) :
  concat ((fun page => paginatedData rows page rowsPerPage) <$> seq 0 n)
  = take (n * rowsPerPage) rows ∧
  (length rows ≤ n * rowsPerPage →
   concat ((fun page => paginatedData rows page rowsPerPage) <$> seq 0 n) = rows ∧
   paginatedData rows n rowsPerPage = []) ∧
  ∀ page, length (paginatedData rows page rowsPerPage) ≤ rowsPerPage.
Proof.
  assert (H : concat ((fun page => paginatedData rows page rowsPerPage) <$> seq 0 n)
              = take (n * rowsPerPage) rows).
  { induction n as [|n IH]; [done|].
    rewrite seq_S, fmap_app, concat_app, IH. simpl. rewrite app_nil_r.
    unfold paginatedData. rewrite take_take_drop. f_equal. lia. }
  split; [exact H|]. split.
  - intros Hlen. split.
    + rewrite H. by apply take_ge.
    + unfold paginatedData. rewrite drop_ge by done. apply take_nil.
  - intros page. unfold paginatedData. rewrite length_take. lia.
Qed.

Lemma paginatedData_partition_witness :
  concat ((fun page => paginatedData [1; 2; 3; 4; 5] page 2) <$> seq 0 3)
  = [1; 2; 3; 4; 5] ∧
  paginatedData [1; 2; 3; 4; 5] 3 2 = [].
Proof.
  apply (proj1 (proj2 (paginatedData_partition [1; 2; 3; 4; 5] 2 3))).
  simpl. lia.
Defined.

(** The double quote. *)
Definition dq : ascii := ascii_of_nat 34.

(** The line feed. *)
Definition lf : string := String (ascii_of_nat 10) EmptyString.

(** The global replacement of the export: every double quote is doubled. *)
Fixpoint csv_escape (s : string) : string :=
  match s with
  | EmptyString => EmptyString
  | String c s' =>
      if Ascii.eqb c dq then String dq (String dq (csv_escape s'))
      else String c (csv_escape s')
  end.

(** The template that puts the escaped text between double quotes. *)
Definition csv_quote (s : string) : string :=
  String dq (csv_escape s +:+ String dq EmptyString).

(** [list.join(sep)] *)
Fixpoint join (sep : string) (l : list string) : string :=
  match l with
  | [] => EmptyString
  | [x] => x
  | x :: l' => x +:+ sep +:+ join sep l'
  end.

(** The elements of [l] that are not in [seen], each once, in the order of
    their first occurrence: what [Array.from(new Set(...))] keeps. *)
Fixpoint uniq_from (seen l : list string) : list string :=
  match l with
  | [] => []
  | x :: l' =>
      if decide (x ∈ seen) then uniq_from seen l'
      else x :: uniq_from (x :: seen) l'
  end.

(** A record as the export reads it: its own properties in the order in
    which [Object.keys] lists them, each key once. *)
Definition OrderedItem : Type := list (string * Value).

Definition Object_keys (item : OrderedItem) : list string := item.*1.

Fixpoint own_property (item : OrderedItem) (key : string) : option Value :=
  match item with
  | [] => None
  | (k, v) :: rest => if String.eqb k key then Some v else own_property rest key
  end.

(** The methods every object inherits from [Object.prototype]; [__proto__],
    which it inherits too, is an accessor that gives [Object.prototype]
    itself. *)
Definition Object_prototype_methods : list string :=
  [ "constructor"; "__defineGetter__"; "__defineSetter__"; "hasOwnProperty";
    "__lookupGetter__"; "__lookupSetter__"; "isPrototypeOf";
    "propertyIsEnumerable"; "toString"; "valueOf"; "toLocaleString" ].

Section Exporting.

(** [JSON.stringify] of an array of strings, and the text [join] writes for
    a function. *)
Variable JSON_stringify : list string → string.
Variable Function_text : string → string.

(** One field of a data row, from the value found under the header. *)
Definition csvField (v : option Value) : string :=
  match v with
  | None | Some VNull => EmptyString
  | Some (VArr l) => csv_quote (JSON_stringify l)
  | Some (VStr s) => csv_quote s
  end.

(** [item[header]] and the field written for it. A header the record has
    no property for gives undefined, unless [Object.prototype] has a member
    of that name: [__proto__] gives an object without enumerable
    properties, any other member a function, which is written as it is. *)
Definition csvCell (item : OrderedItem) (header : string) : string :=
  match own_property item header with
  | Some v => csvField (Some v)
  | None =>
      if String.eqb header "__proto__" then csv_quote "{}"
      else if bool_decide (header ∈ Object_prototype_methods)
           then Function_text header
           else csvField None
  end.

(** The header row: the keys of all the records, each once, in the order
    of their first appearance. *)
Definition csvHeaders (data : list OrderedItem) : list string :=
  uniq_from [] (concat (Object_keys <$> data)).

Definition csvRow (hdrs : list string) (item : OrderedItem) : list string :=
  csvCell item <$> hdrs.

(** [downloadCsv], up to the text it hands to the browser; nothing is
    produced for an empty record list. *)
Definition downloadCsv (data : list OrderedItem) : option string :=
  match data with
  | [] => None
  | _ =>
      let hdrs := csvHeaders data in
      Some (join lf (join "," hdrs ::
                     ((fun item => join "," (csvRow hdrs item)) <$> data)))
  end.

(** What a reader finds under a header in a row that was written well. *)
Definition cell_text (item : OrderedItem) (header : string) : string :=
  match own_property item header with
  | Some (VStr s) => s
  | Some (VArr l) => JSON_stringify l
  | _ => EmptyString
  end.

End Exporting.

(** What a reader of CSV does with a quoted field whose opening quote it
    has passed: it reads up to the closing quote, taking a doubled quote
    for one quote, and gives the text of the field and what follows it. *)
Fixpoint read_quoted (s : string) : option (string * string) :=
  match s with
  | EmptyString => None
  | String c s' =>
      if Ascii.eqb c dq then
        match s' with
        | String c' s'' =>
            if Ascii.eqb c' dq
            then (fun vr => (String dq vr.1, vr.2)) <$> read_quoted s''
            else Some (EmptyString, s')
        | EmptyString => Some (EmptyString, EmptyString)
        end
      else (fun vr => (String c vr.1, vr.2)) <$> read_quoted s'
  end.

Definition read_field (s : string) : option (string * string) :=
  match s with
  | String c s' => if Ascii.eqb c dq then read_quoted s' else None
  | EmptyString => None
  end.

Lemma append_assoc (a b c : string) : (a +:+ b) +:+ c = a +:+ (b +:+ c).
Proof. induction a as [|x a IH]; [done|]. rewrite !append_cons. by rewrite IH. Qed.

Lemma read_quoted_escape (s rest : string) :
  (∀ r, rest ≠ String dq r) →
  read_quoted (csv_escape s +:+ String dq rest) = Some (s, rest).
Proof.
  intros Hrest. induction s as [|c s IH].
  - simpl. destruct rest as [|c' r]; [done|].
    destruct (Ascii.eqb_spec c' dq) as [->|_]; [by destruct (Hrest r)|done].
  - simpl. destruct (Ascii.eqb_spec c dq) as [->|Hc].
    + simpl. by rewrite IH.
    + simpl. destruct (Ascii.eqb_spec c dq) as [|_]; [done|]. by rewrite IH.
Qed.

(** X24. A string value survives the CSV export: the field written for it,
    followed by the end of the text or by anything but a double quote (a
    comma, a line break), is read back as exactly that string, whatever
    commas, quotes or line breaks it holds. *)
Theorem csvField_reads_back (JSON_stringify : list string → string)
  (s rest : string) :
  (∀ r, rest ≠ String dq r) →
  read_field (csvField JSON_stringify (Some (VStr s)) +:+ rest) = Some (s, rest).
Proof.
  intros Hrest. unfold csvField, csv_quote. rewrite append_cons.
  unfold read_field. rewrite Ascii.eqb_refl.
  rewrite append_assoc. rewrite append_cons, append_empty.
  by apply read_quoted_escape.
Qed.

Lemma csvField_reads_back_witness :
  read_field (csvField (fun _ => EmptyString)
                (Some (VStr (String dq "a,b" +:+ String dq EmptyString)))
              +:+ ",next")
  = Some (String dq "a,b" +:+ String dq EmptyString, ",next").
Proof.
  apply (csvField_reads_back (fun _ => EmptyString)
           (String dq "a,b" +:+ String dq EmptyString) ",next").
  intros r H. discriminate H.
Defined.

Lemma uniq_from_spec (l : list string) :
  ∀ seen, NoDup (uniq_from seen l) ∧
          ∀ x, x ∈ uniq_from seen l ↔ x ∈ l ∧ x ∉ seen.
Proof.
  induction l as [|y l IH]; intros seen; simpl.
  - split; [constructor|]. intros x. split; [by intros ?%elem_of_nil|].
    by intros [?%elem_of_nil _].
  - destruct (decide (y ∈ seen)) as [Hin|Hout].
    + destruct (IH seen) as [Hnd Hel]. split; [done|]. intros x. rewrite Hel.
      split; [intros [H1 H2]; split; [by apply list_elem_of_further|done]|].
      intros [H1 H2]. split; [|done].
      apply elem_of_cons in H1 as [->|H1]; [done|done].
    + destruct (IH (y :: seen)) as [Hnd Hel]. split.
      * constructor; [|done]. rewrite Hel. intros [_ H]. apply H, list_elem_of_here.
      * intros x. rewrite elem_of_cons, Hel, !elem_of_cons. split.
        -- intros [->|[H1 H2]]; [by split; [left|]|].
           split; [by right|]. intros H. apply H2. by right.
        -- intros [[->|H1] H2]; [by left|].
           destruct (decide (x = y)) as [->|Hne]; [by left|].
           right. split; [done|]. by intros [?|?].
Qed.

Lemma elem_of_concat {A} (x : A) (ls : list (list A)) :
  x ∈ concat ls ↔ ∃ l, x ∈ l ∧ l ∈ ls.
Proof.
  induction ls as [|l ls IH]; simpl.
  - split; [by intros ?%elem_of_nil|]. by intros (l & _ & ?%elem_of_nil).
  - rewrite elem_of_app, IH. split.
    + intros [H|(l' & H1 & H2)]; [exists l; split; [done|apply list_elem_of_here]|].
      exists l'. split; [done|]. by apply list_elem_of_further.
    + intros (l' & H1 & H2). apply elem_of_cons in H2 as [->|H2]; [by left|].
      right. by exists l'.
Qed.

(** ** Reading a line of the export

    The fields of one line, as a reader of CSV takes them: fields are
    separated by commas; a field that begins with a double quote runs to
    its closing quote, a doubled quote inside it standing for one quote;
    any other field runs to the next comma. *)

Inductive Mode : Type := AtStart | InBare | InQuoted | AfterQuote.

Definition comma : ascii := ascii_of_nat 44.

Definition push_char (c : ascii) (fields : list string) : list string :=
  match fields with
  | f :: rest => String c f :: rest
  | [] => [String c EmptyString]
  end.

Fixpoint read_fields (mode : Mode) (s : string) : option (list string) :=
  match s with
  | EmptyString =>
      match mode with
      | InQuoted => None
      | _ => Some [EmptyString]
      end
  | String c s' =>
      match mode with
      | AtStart =>
          if Ascii.eqb c dq then read_fields InQuoted s'
          else if Ascii.eqb c comma then cons EmptyString <$> read_fields AtStart s'
          else push_char c <$> read_fields InBare s'
      | InBare =>
          if Ascii.eqb c comma then cons EmptyString <$> read_fields AtStart s'
          else push_char c <$> read_fields InBare s'
      | InQuoted =>
          if Ascii.eqb c dq then read_fields AfterQuote s'
          else push_char c <$> read_fields InQuoted s'
      | AfterQuote =>
          if Ascii.eqb c dq then push_char dq <$> read_fields InQuoted s'
          else if Ascii.eqb c comma then cons EmptyString <$> read_fields AtStart s'
          else None
      end
  end.

Definition read_line (s : string) : option (list string) := read_fields AtStart s.

(** A text without a comma, a double quote or a line break. *)
Fixpoint plain (s : string) : bool :=
  match s with
  | EmptyString => true
  | String c s' =>
      negb (Ascii.eqb c comma) && negb (Ascii.eqb c dq)
      && negb (Ascii.eqb c (ascii_of_nat 10)) && negb (Ascii.eqb c (ascii_of_nat 13))
      && plain s'
  end.

(** A line without any field reads as one empty field. *)
Definition fields_read (fields : list string) : list string :=
  match fields with
  | [] => [EmptyString]
  | _ => fields
  end.

(** A field as it is written, and the text it stands for: a quoted text, or
    a plain text written as it is. *)
Definition written (w r : string) : Prop :=
  w = csv_quote r ∨ (w = r ∧ plain r = true).

Lemma append_nil_r (s : string) : s +:+ EmptyString = s.
Proof. induction s as [|c s IH]; [done|]. by rewrite append_cons, IH. Qed.

Lemma read_quoted_field (s t f : string) (fields : list string) :
  read_fields AfterQuote t = Some (f :: fields) →
  read_fields InQuoted (csv_escape s +:+ String dq t) = Some ((s +:+ f) :: fields).
Proof.
  intros Ht. induction s as [|c s IH]; simpl.
  - exact Ht.
  - destruct (Ascii.eqb_spec c dq) as [->|Hc]; simpl.
    + by rewrite IH.
    + destruct (Ascii.eqb_spec c dq) as [|_]; [done|]. by rewrite IH.
Qed.

Lemma read_bare_field (s t f : string) (fields : list string) :
  plain s = true →
  read_fields InBare t = Some (f :: fields) →
  read_fields InBare (s +:+ t) = Some ((s +:+ f) :: fields).
Proof.
  intros Hs Ht. induction s as [|c s IH]; simpl; [done|].
  simpl in Hs. apply andb_prop in Hs as [Hc Hs].
  apply andb_prop in Hc as [Hc _]. apply andb_prop in Hc as [Hc _].
  apply andb_prop in Hc as [Hc _]. apply negb_true_iff in Hc. rewrite Hc.
  by rewrite (IH Hs).
Qed.

Lemma read_start_bare (s t : string) :
  plain s = true → (t = EmptyString ∨ ∃ u, t = String comma u) →
  read_fields AtStart (s +:+ t) = read_fields InBare (s +:+ t).
Proof.
  intros Hs Ht. destruct s as [|c s]; simpl.
  - by destruct Ht as [-> | [u ->]].
  - simpl in Hs. apply andb_prop in Hs as [Hc _].
    apply andb_prop in Hc as [Hc _]. apply andb_prop in Hc as [Hc _].
    apply andb_prop in Hc as [Hc Hq]. apply negb_true_iff in Hc, Hq.
    by rewrite Hc, Hq.
Qed.

(** One written field, followed by the end of the line or by a comma and
    the rest of the line. *)
Lemma read_written_last (w r : string) :
  written w r → read_fields AtStart w = Some [r].
Proof.
  intros [-> | [-> Hr]].
  - unfold csv_quote. simpl.
    rewrite (read_quoted_field r EmptyString EmptyString []) by done.
    by rewrite append_nil_r.
  - rewrite <- (append_nil_r r) at 1.
    rewrite read_start_bare by (by try left).
    rewrite (read_bare_field r EmptyString EmptyString []) by done.
    by rewrite append_nil_r.
Qed.

Lemma read_written_more (w r rest : string) (fields : list string) :
  written w r → read_fields AtStart rest = Some fields →
  read_fields AtStart (w +:+ String comma rest) = Some (r :: fields).
Proof.
  intros [-> | [-> Hr]] Hrest.
  - unfold csv_quote. rewrite append_cons. simpl.
    rewrite append_assoc, append_cons, append_empty.
    rewrite (read_quoted_field r (String comma rest) EmptyString fields).
    + by rewrite append_nil_r.
    + simpl. by rewrite Hrest.
  - rewrite read_start_bare by (try done; right; by eexists).
    rewrite (read_bare_field r (String comma rest) EmptyString fields); try done.
    + by rewrite append_nil_r.
    + simpl. by rewrite Hrest.
Qed.

Lemma read_line_join (ws rs : list string) :
  Forall2 written ws rs →
  read_line (join "," ws) = Some (fields_read rs).
Proof.
  unfold read_line. induction 1 as [|w r ws rs Hw Hrest IH]; [done|].
  destruct Hrest as [|w' r' ws' rs' Hw' Hrest']; simpl.
  - by apply read_written_last.
  - simpl in IH. change (String "," (join "," (w' :: ws')))
      with (String comma (join "," (w' :: ws'))).
    by apply read_written_more.
Qed.

Lemma uniq_from_seen (l seen : list string) :
  Forall (fun x => x ∈ seen) l → uniq_from seen l = [].
Proof.
  induction l as [|x l IH]; intros H; simpl; [done|].
  apply Forall_cons in H as [Hx H]. destruct (decide (x ∈ seen)); [by apply IH|done].
Qed.

Lemma uniq_from_first (ks : list string) :
  ∀ seen rest,
    NoDup ks → Forall (fun x => x ∉ seen) ks →
    Forall (fun x => x ∈ ks ∨ x ∈ seen) rest →
    uniq_from seen (ks ++ rest) = ks.
Proof.
  induction ks as [|k ks IH]; intros seen rest Hnd Hnew Hrest; simpl.
  - apply uniq_from_seen. eapply Forall_impl; [exact Hrest|].
    intros x [H|H]; [by apply elem_of_nil in H|done].
  - apply NoDup_cons in Hnd as [Hk Hnd]. apply Forall_cons in Hnew as [Hk' Hnew].
    destruct (decide (k ∈ seen)) as [|_]; [done|]. f_equal. apply IH; [done| |].
    + rewrite Forall_forall in Hnew |- *. intros x Hx Hin.
      apply elem_of_cons in Hin as [->|Hin]; [done|]. by apply (Hnew x).
    + eapply Forall_impl; [exact Hrest|]. intros x [H|H].
      * apply elem_of_cons in H as [->|H]; [right; apply list_elem_of_here|by left].
      * right. by apply list_elem_of_further.
Qed.

Lemma own_property_key (item : OrderedItem) (k : string) :
  is_Some (own_property item k) ↔ k ∈ Object_keys item.
Proof.
  unfold Object_keys. induction item as [|[k' v] item IH]; simpl.
  - split; [by intros [? ?]|by intros ?%elem_of_nil].
  - destruct (String.eqb_spec k' k) as [->|Hne].
    + split; [intros _; apply list_elem_of_here|by eexists].
    + rewrite IH, elem_of_cons. split; [by right|]. by intros [?|?].
Qed.

(** X25. The header row of the CSV export names every key of every record
    once; when all the records list the same keys, it names them in that
    order. The names are written as they are, and the values between
    quotes: when no key holds a comma, a double quote or a line break, the
    header row reads back as exactly these names, and the row of a record
    reads back as one field per name, which is the string or the JSON text
    of the array the record holds under that name, and the empty text for
    null and for a name the record has no property for (a name of a member
    of [Object.prototype] apart, for which the member is written). *)
Theorem csv_lines_read_back (JSON_stringify : list string → string)
  (Function_text : string → string) (data : list OrderedItem) :
  (NoDup (csvHeaders data) ∧
   ∀ k, k ∈ csvHeaders data ↔ ∃ item, item ∈ data ∧ k ∈ Object_keys item) ∧
  (∀ keys, data ≠ [] → NoDup keys →
           Forall (fun item => Object_keys item = keys) data →
           csvHeaders data = keys) ∧
  (Forall (fun k => plain k = true) (csvHeaders data) →
   read_line (join "," (csvHeaders data)) = Some (fields_read (csvHeaders data))) ∧
  (∀ item,
     Forall (fun k => k ∈ Object_keys item
                      ∨ (k ≠ "__proto__" ∧ k ∉ Object_prototype_methods))
            (csvHeaders data) →
     read_line (join "," (csvRow JSON_stringify Function_text (csvHeaders data) item))
     = Some (fields_read (cell_text JSON_stringify item <$> csvHeaders data))).
Proof.
  split; [|split; [|split]].
  - unfold csvHeaders.
    destruct (uniq_from_spec (concat (Object_keys <$> data)) []) as [Hnd Hel].
    split; [done|]. intros k. rewrite Hel. split.
    + intros [Hin _]. apply elem_of_concat in Hin as (keys & Hk & Hkeys).
      apply list_elem_of_fmap in Hkeys as (item & -> & Hitem). by exists item.
    + intros (item & Hitem & Hk). split; [|by intros ?%elem_of_nil].
      apply elem_of_concat. exists (Object_keys item). split; [done|].
      apply list_elem_of_fmap. by exists item.
  - intros keys Hdata Hnd Hsame. unfold csvHeaders.
    destruct data as [|item data]; [done|].
    apply Forall_cons in Hsame as [Hitem Hsame]. simpl. rewrite Hitem.
    apply uniq_from_first; [done| |].
    + apply Forall_forall. by intros x _ ?%elem_of_nil.
    + apply Forall_forall. intros x Hx. left.
      apply elem_of_concat in Hx as (l & Hx & Hl).
      apply list_elem_of_fmap in Hl as (item' & -> & Hitem').
      rewrite Forall_forall in Hsame. by rewrite (Hsame item' Hitem') in Hx.
  - intros Hplain. apply read_line_join.
    induction (csvHeaders data) as [|k ks IH]; [constructor|].
    apply Forall_cons in Hplain as [Hk Hplain].
    constructor; [by right|by apply IH].
  - intros item Hok. apply read_line_join. unfold csvRow.
    induction (csvHeaders data) as [|k ks IH]; [constructor|].
    apply Forall_cons in Hok as [Hk Hok]. simpl.
    constructor; [|by apply IH].
    unfold csvCell, cell_text, written.
    destruct (own_property item k) as [[s|l|]|] eqn:E; simpl;
      [by left | by left | by right |].
    destruct Hk as [Hk | [Hp Hm]].
    { apply own_property_key in Hk. rewrite E in Hk. by destruct Hk. }
    apply String.eqb_neq in Hp. rewrite Hp.
    rewrite bool_decide_eq_false_2 by done. by right.
Qed.

(** Three records with different keys: the header row keeps the order in
    which the keys first appear. *)
Example csvHeaders_first_appearance :
  csvHeaders [ [("title", VStr "a"); ("item", VStr "1")];
               [("item", VStr "2"); ("extra", VNull)];
               [("title", VStr "b")] ]
  = ["title"; "item"; "extra"].
Proof. reflexivity. Qed.

(** A key with a comma is written as it is, and reads back as two names. *)
Example csvHeaders_unquoted :
  read_line (join "," (csvHeaders [ [("a,b", VStr "1")] ])) = Some ["a"; "b"] ∧
  read_line (join "," (csvRow (fun _ => EmptyString) (fun _ => EmptyString)
                         (csvHeaders [ [("a,b", VStr "1")] ]) [("a,b", VStr "1")]))
  = Some ["1"].
Proof. split; reflexivity. Qed.
